(** * Poedit syntax highlighter: a shallow embedding of [syntaxhighlighter.cpp]

    The development follows the source file top to bottom:
    - [BasicSyntaxHighlighter::Highlight], the scanner for whitespace
      anomalies and escape sequences;
    - [RegexSyntaxHighlighter::Highlight], the loop over a
      [std::wsregex_iterator] with its [try]/[catch];
    - [CompositeSyntaxHighlighter::Highlight];
    - the pattern library ([RE_HTML_MARKUP] ... [RE_COMMON_PLACEHOLDERS]);
    - [SyntaxHighlighter::ForItem].

    Modelling conventions.
    - A [std::wstring] is a [list Z] of code units.
    - The [highlight] callback is a sink; a call of [Highlight] is modelled by
      the list of triples it passes to the callback, in call order.
    - Positions are [int] in the source.  The two edge loops convert the
      length of the string and the distance walked with [int(...)], and the
      conversions are modelled by [int], which wraps modulo 2^32.  The
      positions of the forward pass and of the pattern matcher are modelled
      as the distance itself, in [Z]; the two agree on every string of at most
      [INT_MAX] code units.
    - [u_isblank] (ICU) and the [std::regex] engine are external; both are
      parameters of the sections that use them. *)

From Stdlib Require Import String Ascii ZArith List Bool Lia Sorted.
Import ListNotations.
Local Open Scope Z_scope.

(** ** Data model *)

(** Modelled from the spec: the enumeration [SyntaxHighlighter::TextKind],
    which the header [syntaxhighlighter.h] declares.  The spec gives it the
    four variants the source file uses.  The values of the enumerators are a
    parameter of the selector. *)
Inductive TextKind : Type :=
| LeadingWhitespace
| Escape
| Markup
| Placeholder.

Definition wchar_t := Z.
Definition wstring := list wchar_t.

(** One call [highlight(a, b, kind)] of the callback. *)
Record span : Type := Span { sp_start : Z; sp_end : Z; sp_kind : TextKind }.

Definition wlength (s : wstring) : Z := Z.of_nat (List.length s).

(** The span invariant of the data model: [0 <= start < end <= length]. *)
Definition span_ok (s : wstring) (h : span) : Prop :=
  0 <= sp_start h /\ sp_start h < sp_end h /\ sp_end h <= wlength s.

Definition starts (out : list span) : list Z := map sp_start out.

(** Strictly increasing start positions along a sequence of callbacks. *)
Definition increasing_starts (out : list span) : Prop :=
  StronglySorted Z.lt (starts out).

Definition NBSP : wchar_t := 0x00A0.
Definition BACKSLASH : wchar_t := 92.

(** The type [int] of the source, 32 bits wide: its largest value, and the
    conversion [int(x)] of a size or of a distance between iterators, which
    keeps [x] modulo 2^32 in the range from -2^31 up to [INT_MAX]. *)
Definition INT_MAX : Z := 2147483647.

Definition int (x : Z) : Z := (x + 2147483648) mod 4294967296 - 2147483648.

(** Code points of a literal, for writing inputs. *)
Fixpoint L (s : string) : wstring :=
  match s with
  | EmptyString => []
  | String c r => Z.of_N (N_of_ascii c) :: L r
  end.

(** ** BasicSyntaxHighlighter *)

Module Basic.
Section WithBlank.

(** ICU's [u_isblank], an external capability. *)
Variable u_isblank : wchar_t -> bool.

(** The two edge loops: walk from one end until the first code point that is
    not blank and return the distance walked, [i - s.begin()] or
    [i - s.rbegin()]; [None] when the loop runs off the string without
    reaching its [break]. *)
Fixpoint blank_prefix (s : wstring) (n : Z) : option Z :=
  match s with
  | [] => None
  | c :: r => if u_isblank c then blank_prefix r (n + 1) else Some n
  end.

Definition leading (s : wstring) : list span :=
  match blank_prefix s 0 with
  | Some d =>
      let wlen := int d in
      if wlen =? 0 then [] else [Span 0 wlen LeadingWhitespace]
  | None => []
  end.

(** [length] is [int(s.length())]; the difference [length - wlen] is taken
    in [int] as well. *)
Definition trailing (s : wstring) : list span :=
  let length := int (wlength s) in
  match blank_prefix (rev s) 0 with
  | Some d =>
      let wlen := int d in
      if wlen =? 0 then []
      else [Span (int (length - wlen)) length LeadingWhitespace]
  | None => []
  end.

(** The [if / else if / else if] chain at the top of the third loop's body:
    the callbacks it makes at position [pos] and the new value of
    [blank_block_pos]. *)
Definition whitespace (c : wchar_t) (pos blank_block_pos : Z)
  : list span * Z :=
  if c =? NBSP then
    ([Span pos (pos + 1) LeadingWhitespace], blank_block_pos)
  else if u_isblank c then
    ([], if blank_block_pos =? -1 then pos else blank_block_pos)
  else if negb (blank_block_pos =? -1) then
    ((if pos - blank_block_pos >=? 2
      then [Span blank_block_pos pos LeadingWhitespace] else []), -1)
  else
    ([], blank_block_pos).

(** The [switch] on the code point after a backslash. *)
Definition is_escape_char (c : wchar_t) : bool :=
  existsb (Z.eqb c) (L "0abfnrtv\").

Definition escape (pos : Z) (c : wchar_t) : list span :=
  if is_escape_char c then [Span pos (pos + 2) Escape] else [].

(** The third loop.  [s] is what is left of the string from the iterator [i]
    on, [pos] is the distance [i - s.begin()], which the source converts to
    [int] where it uses it; the two are the same up to [INT_MAX].  After a
    backslash the inner [++i] and the loop's own [++i] move two code points
    ahead; a backslash in last position leaves the loop by [break]. *)
Fixpoint scan (s : wstring) (pos blank_block_pos : Z) : list span :=
  match s with
  | [] => []
  | c :: rest =>
      let (hl, bbp) := whitespace c pos blank_block_pos in
      if c =? BACKSLASH then
        match rest with
        | [] => hl
        | e :: rest' => hl ++ escape pos e ++ scan rest' (pos + 2) bbp
        end
      else hl ++ scan rest (pos + 1) bbp
  end.

Definition Highlight (s : wstring) : list span :=
  match s with
  | [] => []
  | _ => leading s ++ trailing s ++ scan s 0 (-1)
  end.

End WithBlank.
End Basic.

(** *** Predicates on the forward pass *)

(** What a code point that is not blank emits when it comes upon the open
    run, if there is one. *)
Definition close_run (pos blank_block_pos : Z) : list span :=
  if blank_block_pos =? -1 then []
  else if pos - blank_block_pos >=? 2
       then [Span blank_block_pos pos LeadingWhitespace] else [].

(** [blank_block_pos] is -1 or a position already passed. *)
Definition run_state (pos blank_block_pos : Z) : Prop :=
  blank_block_pos = -1 \/ 0 <= blank_block_pos < pos.

Definition within (lo hi : Z) (h : span) : Prop :=
  lo <= sp_start h /\ sp_start h < sp_end h /\ sp_end h <= hi.

(** Increasing starts, all of them at [b] or beyond. *)
Definition starts_above (b : Z) (out : list span) : Prop :=
  increasing_starts out /\ Forall (fun h => b <= sp_start h) out.


(** [u_isblank] as ICU documents it: TAB and the space separators (Zs). *)
Definition icu_isblank (c : wchar_t) : bool :=
  (c =? 0x0009) || (c =? 0x0020) || (c =? 0x00A0) || (c =? 0x1680)
  || ((0x2000 <=? c) && (c <=? 0x200A))
  || (c =? 0x202F) || (c =? 0x205F) || (c =? 0x3000).

(** ** std::regex, as far as the highlighters use it *)

(** [std::regex_constants::error_type]. *)
Inductive error_type : Type :=
| error_collate | error_ctype | error_escape | error_backref | error_brack
| error_paren | error_brace | error_badbrace | error_range | error_space
| error_badrepeat | error_complexity | error_stack.

(** [std::regex_constants::syntax_option_type], the two flags in use. *)
Inductive syntax_option : Type := ECMAScript | optimize.

(** A [std::wregex] object: the pattern text and the flags it was built from. *)
Record wregex : Type :=
  { re_pattern : string; re_flags : list syntax_option }.

(** A [std::wsmatch].  [empty()] is the member of [std::match_results]: true
    when the object holds no match at all (its [size()] is 0). *)
Record wsmatch : Type :=
  { m_empty : bool; m_position : Z; m_length : Z }.

(** How a call ends: by returning, or by an exception leaving it. *)
Inductive outcome : Type :=
| Returned
| Thrown (code : error_type).

Module Regex.

(** What the engine does for one pattern on one string, seen through a
    [std::wsregex_iterator]: the matches the successive searches find, and how
    the search after the last of them ends. *)
Inductive search_end : Type :=
| no_more_matches
| regex_error (code : error_type).

Record regex_run : Type :=
  { found : list wsmatch; finish : search_end }.

(** An iterator is the end-of-sequence iterator or sits on a match, with the
    searches still to come behind it. *)
Inductive wsregex_iterator : Type :=
| It_end
| It_at (m : wsmatch) (ms : list wsmatch) (fin : search_end).

(** One search, as made by the iterator's constructor and by [operator++]. *)
Definition search (ms : list wsmatch) (fin : search_end)
  : error_type + wsregex_iterator :=
  match ms with
  | m :: ms' => inr (It_at m ms' fin)
  | [] =>
      match fin with
      | no_more_matches => inr It_end
      | regex_error code => inl code
      end
  end.

(** The body of the loop after [auto match = *next++].  The position and the
    length of the match are converted to [int] by the source; they are kept
    as they are here, which is the same up to [INT_MAX]. *)
Definition callback (kind : TextKind) (m : wsmatch) : list span :=
  if m_empty m then []
  else [Span (m_position m) (m_position m + m_length m) kind].

(** The [while (next != end)] loop, entered with [next] on the match [m].
    [*next++] is [operator++(int)] followed by the dereference of the copy it
    returns: the increment, hence the next search, runs first, and an
    exception from it leaves the loop before [m] reaches the callback. *)
Fixpoint loop (kind : TextKind) (m : wsmatch) (ms : list wsmatch)
    (fin : search_end) {struct ms} : list span * outcome :=
  match ms with
  | m' :: ms' =>
      let (out, o) := loop kind m' ms' fin in (callback kind m ++ out, o)
  | [] =>
      match fin with
      | no_more_matches => (callback kind m, Returned)
      | regex_error code => ([], Thrown code)
      end
  end.

(** The [try] block. *)
Definition try_block (run : regex_run) (kind : TextKind)
  : list span * outcome :=
  match search (found run) (finish run) with
  | inl code => ([], Thrown code)
  | inr It_end => ([], Returned)
  | inr (It_at m ms fin) => loop kind m ms fin
  end.

(** The [catch (std::regex_error& e)] handler. *)
Definition handler (o : outcome) : outcome :=
  match o with
  | Thrown error_complexity | Thrown error_stack => Returned
  | Thrown code => Thrown code
  | Returned => Returned
  end.

Definition Highlight (run : regex_run) (kind : TextKind)
  : list span * outcome :=
  let (out, o) := try_block run kind in (out, handler o).

(** [std::regex_search(s, re)]: the first search alone. *)
Definition regex_search (run : regex_run) : error_type + bool :=
  match search (found run) (finish run) with
  | inl code => inl code
  | inr It_end => inr false
  | inr (It_at _ _ _) => inr true
  end.

End Regex.

(** The codes the handler absorbs. *)
Definition resource_exhaustion (code : error_type) : bool :=
  match code with
  | error_complexity | error_stack => true
  | _ => false
  end.

(** ** The highlighters and their virtual [Highlight] *)

#[local] Set Warnings "-register-all".
Inductive SyntaxHighlighter : Type :=
| BasicSyntaxHighlighter
| CompositeSyntaxHighlighter (m_sub : list SyntaxHighlighter)
| RegexSyntaxHighlighter (m_re : wregex) (m_kind : TextKind).

Section Highlighters.

Variable u_isblank : wchar_t -> bool.

(** The regex engine: for a pattern and a string, the run an iterator sees. *)
Variable engine : wregex -> wstring -> Regex.regex_run.

(** [for (auto h : m_sub) h->Highlight(s, highlight);] given each
    sub-highlighter's own behaviour [hl]: an exception leaves the loop. *)
Fixpoint for_each_sub (hl : SyntaxHighlighter -> list span * outcome)
    (m_sub : list SyntaxHighlighter) : list span * outcome :=
  match m_sub with
  | [] => ([], Returned)
  | h :: rest =>
      match hl h with
      | (out, Returned) =>
          let (out', o) := for_each_sub hl rest in (out ++ out', o)
      | (out, Thrown code) => (out, Thrown code)
      end
  end.

Fixpoint Highlight (h : SyntaxHighlighter) (s : wstring)
  : list span * outcome :=
  match h with
  | BasicSyntaxHighlighter => (Basic.Highlight u_isblank s, Returned)
  | CompositeSyntaxHighlighter m_sub =>
      (fix each (l : list SyntaxHighlighter) : list span * outcome :=
         match l with
         | [] => ([], Returned)
         | h' :: rest =>
             match Highlight h' s with
             | (out, Returned) =>
                 let (out', o) := each rest in (out ++ out', o)
             | (out, Thrown code) => (out, Thrown code)
             end
         end) m_sub
  | RegexSyntaxHighlighter m_re m_kind => Regex.Highlight (engine m_re s) m_kind
  end.

End Highlighters.

(** ** The pattern library *)

Local Open Scope string_scope.

(** The double quote, for the patterns that contain one. *)
Definition dq : string := String (ascii_of_nat 34) EmptyString.

Definition ECMAScript_optimize : list syntax_option := [ECMAScript; optimize].

Definition RE_HTML_MARKUP : wregex :=
  {| re_pattern :=
       "(<\/?[a-zA-Z0-9:-]+(\s+[-:\w]+(=([-:\w+]|" ++ dq ++ "[^" ++ dq ++ "]*"
       ++ dq ++ "|'[^']*'))?)*\s*\/?>)|(&[^ ;]+;)";
     re_flags := ECMAScript_optimize |}.

Definition RE_PHP_FORMAT : wregex :=
  {| re_pattern :=
       "%(\d+\$)?[-+]{0,2}([ 0]|'.)?-?\d*(\..?\d+)?[%bcdeEfFgGosuxX]";
     re_flags := ECMAScript_optimize |}.

Definition RE_C_FORMAT : wregex :=
  {| re_pattern :=
       "%(\d+\$)?[-+ #0]{0,5}(\d+|\*)?(\.(\d+|\*))?(hh|ll|[hljztL])?[%csdioxXufFeEaAgGnp]";
     re_flags := ECMAScript_optimize |}.

Definition RE_PYTHON_FORMAT : wregex :=
  {| re_pattern :=
       "(%(\(\w+\))?[-+ #0]?(\d+|\*)?(\.(\d+|\*))?[hlL]?[diouxXeEfFgGcrs%])"
       ++ "|"
       ++ "(\{([^{}])*\})";
     re_flags := ECMAScript_optimize |}.

Definition RE_RUBY_FORMAT : wregex :=
  {| re_pattern :=
       "%(\d+\$)?[-+ #0]{0,5}(\d+|\*)?(\.(\d+|\*))?(hh|ll|[hljztL])?[%csdioxXufFeEaAgGnp]";
     re_flags := ECMAScript_optimize |}.

Definition RE_COMMON_PLACEHOLDERS : wregex :=
  {| re_pattern :=
       "%[\w.-]+%|%?\{[\w.-]+\}|\{\{[\w.-]+\}\}|[@%][\w-]+|" ++ dq ++ ":[\w-]+"
       ++ dq ++ "|':[\w-]+'";
     re_flags := ECMAScript_optimize |}.

Definition pattern_library : list wregex :=
  [RE_HTML_MARKUP; RE_PHP_FORMAT; RE_C_FORMAT; RE_PYTHON_FORMAT;
   RE_RUBY_FORMAT; RE_COMMON_PLACEHOLDERS].

Local Close Scope string_scope.

(** Built from the structural matcher and pattern matchers over the library,
    as every highlighter [ForItem] hands out is. *)
Fixpoint from_library (h : SyntaxHighlighter) : Prop :=
  match h with
  | BasicSyntaxHighlighter => True
  | CompositeSyntaxHighlighter m_sub =>
      (fix all (l : list SyntaxHighlighter) : Prop :=
         match l with
         | [] => True
         | h' :: rest => from_library h' /\ all rest
         end) m_sub
  | RegexSyntaxHighlighter m_re _ => In m_re pattern_library
  end.

(** ** The grammar of the patterns

    The constructor of [std::wregex] parses the pattern text.  [compile] reads
    the part of the ECMAScript grammar the library is written in:
    alternation, concatenation, the quantifiers [*], [+], [?] and [{n,m}],
    groups, the dot, bracket expressions with ranges, and the escapes for
    [d], [w], [s] and for punctuation.  Anything else (assertions, lazy
    quantifiers, back-references, look-ahead) is refused with [None]. *)

Inductive char_class : Type := class_d | class_w | class_s.

Inductive class_atom : Type :=
| CA_char (c : wchar_t)
| CA_range (lo hi : wchar_t)
| CA_class (negated : bool) (k : char_class).

Inductive regex : Type :=
| R_empty
| R_char (c : wchar_t)
| R_any
| R_set (negated : bool) (atoms : list class_atom)
| R_seq (a b : regex)
| R_alt (a b : regex)
| R_repeat (min : nat) (max : option nat) (a : regex)
| R_group (a : regex).

Module Parser.
Local Open Scope char_scope.

Definition code (c : ascii) : wchar_t := Z.of_N (N_of_ascii c).

Definition is_digit (c : ascii) : bool :=
  (48 <=? code c)%Z && (code c <=? 57)%Z.

Definition is_alpha (c : ascii) : bool :=
  ((65 <=? code c)%Z && (code c <=? 90)%Z)
  || ((97 <=? code c)%Z && (code c <=? 122)%Z).

(** The characters that are not a PatternCharacter. *)
Definition is_syntax_char (c : ascii) : bool :=
  existsb (Ascii.eqb c)
    ["^"; "$"; "\"; "."; "*"; "+"; "?"; "("; ")"; "["; "]"; "{"; "}"; "|"].

Definition class_of (c : ascii) : option (bool * char_class) :=
  match c with
  | "d" => Some (false, class_d)
  | "D" => Some (true, class_d)
  | "w" => Some (false, class_w)
  | "W" => Some (true, class_w)
  | "s" => Some (false, class_s)
  | "S" => Some (true, class_s)
  | _ => None
  end.

Definition control_escape (c : ascii) : option wchar_t :=
  match c with
  | "t" => Some 9%Z
  | "n" => Some 10%Z
  | "v" => Some 11%Z
  | "f" => Some 12%Z
  | "r" => Some 13%Z
  | "0" => Some 0%Z
  | _ => None
  end.

(** The single code point an escape stands for, when it stands for one;
    letters and digits without a meaning of their own are refused. *)
Definition char_escape (c : ascii) : option wchar_t :=
  match control_escape c with
  | Some z => Some z
  | None => if is_digit c || is_alpha c then None else Some (code c)
  end.

Definition atom_escape (c : ascii) : option regex :=
  match class_of c with
  | Some (neg, k) => Some (R_set false [CA_class neg k])
  | None => option_map R_char (char_escape c)
  end.

Definition class_escape (c : ascii) : option class_atom :=
  match class_of c with
  | Some (neg, k) => Some (CA_class neg k)
  | None => if Ascii.eqb c "b" then Some (CA_char 8%Z)
            else option_map CA_char (char_escape c)
  end.

Fixpoint number (s : list ascii) (acc : option nat)
  : option nat * list ascii :=
  match s with
  | c :: r =>
      if is_digit c then
        let d := Z.to_nat (code c - 48) in
        number r (Some (10 * match acc with Some n => n | None => 0 end + d)%nat)
      else (acc, s)
  | [] => (acc, s)
  end.

(** A quantifier, if one follows: its bounds. *)
Definition quantifier (s : list ascii)
  : option (option (nat * option nat) * list ascii) :=
  let no_lazy (q : nat * option nat) (r : list ascii) :=
    match r with
    | "?" :: _ => None
    | _ => Some (Some q, r)
    end in
  match s with
  | "*" :: r => no_lazy (0%nat, None) r
  | "+" :: r => no_lazy (1%nat, None) r
  | "?" :: r => no_lazy (0%nat, Some 1%nat) r
  | "{" :: r =>
      match number r None with
      | (Some n, "}" :: r') => no_lazy (n, Some n) r'
      | (Some n, "," :: r') =>
          match number r' None with
          | (mx, "}" :: r'') => no_lazy (n, mx) r''
          | _ => None
          end
      | _ => None
      end
  | _ => Some (None, s)
  end.

Definition quantified (a : regex) (s : list ascii)
  : option (regex * list ascii) :=
  match quantifier s with
  | Some (Some (mn, mx), r) => Some (R_repeat mn mx a, r)
  | Some (None, r) => Some (a, r)
  | None => None
  end.

Definition class_atom_at (s : list ascii) : option (class_atom * list ascii) :=
  match s with
  | "\" :: c :: r => option_map (fun a => (a, r)) (class_escape c)
  | "\" :: [] => None
  | c :: r => Some (CA_char (code c), r)
  | [] => None
  end.

(** The inside of a bracket expression, up to and including its [[]]. *)
Fixpoint class_ranges (fuel : nat) (s : list ascii)
  : option (list class_atom * list ascii) :=
  match fuel with
  | O => None
  | S fuel' =>
      match s with
      | "]" :: r => Some ([], r)
      | _ =>
          match class_atom_at s with
          | None => None
          | Some (a, s1) =>
              let single :=
                match class_ranges fuel' s1 with
                | Some (l, r) => Some (a :: l, r)
                | None => None
                end in
              match s1 with
              | "-" :: "]" :: _ => single
              | "-" :: s2 =>
                  match a, class_atom_at s2 with
                  | CA_char lo, Some (CA_char hi, s3) =>
                      if (lo <=? hi)%Z then
                        match class_ranges fuel' s3 with
                        | Some (l, r) => Some (CA_range lo hi :: l, r)
                        | None => None
                        end
                      else None
                  | _, _ => None
                  end
              | _ => single
              end
          end
      end
  end.

Fixpoint disjunction (fuel : nat) (s : list ascii) {struct fuel}
  : option (regex * list ascii) :=
  match fuel with
  | O => None
  | S fuel' =>
      match alternative fuel' s with
      | Some (a, "|" :: r) =>
          match disjunction fuel' r with
          | Some (b, r') => Some (R_alt a b, r')
          | None => None
          end
      | other => other
      end
  end
with alternative (fuel : nat) (s : list ascii) {struct fuel}
  : option (regex * list ascii) :=
  match fuel with
  | O => None
  | S fuel' =>
      match s with
      | [] | "|" :: _ | ")" :: _ => Some (R_empty, s)
      | _ =>
          match term fuel' s with
          | Some (t, r) =>
              match alternative fuel' r with
              | Some (a, r') => Some (R_seq t a, r')
              | None => None
              end
          | None => None
          end
      end
  end
with term (fuel : nat) (s : list ascii) {struct fuel}
  : option (regex * list ascii) :=
  match fuel with
  | O => None
  | S fuel' =>
      match s with
      | "(" :: "?" :: ":" :: r =>
          match disjunction fuel' r with
          | Some (d, ")" :: r') => quantified d r'
          | _ => None
          end
      | "(" :: "?" :: _ => None
      | "(" :: r =>
          match disjunction fuel' r with
          | Some (d, ")" :: r') => quantified (R_group d) r'
          | _ => None
          end
      | "[" :: "^" :: r =>
          match class_ranges fuel' r with
          | Some (atoms, r') => quantified (R_set true atoms) r'
          | None => None
          end
      | "[" :: r =>
          match class_ranges fuel' r with
          | Some (atoms, r') => quantified (R_set false atoms) r'
          | None => None
          end
      | "\" :: c :: r =>
          match atom_escape c with
          | Some a => quantified a r
          | None => None
          end
      | "." :: r => quantified R_any r
      | c :: r =>
          if is_syntax_char c then None else quantified (R_char (code c)) r
      | [] => None
      end
  end.

Definition compile (pattern : string) : option regex :=
  let s := list_ascii_of_string pattern in
  match disjunction (4 * List.length s + 4) s with
  | Some (r, []) => Some r
  | _ => None
  end.

End Parser.

(** ** What a pattern matches

    The language of a compiled pattern.  The library uses no back-reference
    and no assertion, so a pattern denotes a regular language; whatever
    substring an engine reports as a match of the pattern belongs to it. *)

Section Language.

(** [regex_traits::isctype]: the locale's classification behind the class
    escapes. *)
Variable isctype : char_class -> wchar_t -> bool.

Definition line_terminator (c : wchar_t) : bool :=
  (c =? 10) || (c =? 13) || (c =? 0x2028) || (c =? 0x2029).

Definition class_atom_has (c : wchar_t) (a : class_atom) : bool :=
  match a with
  | CA_char x => c =? x
  | CA_range lo hi => (lo <=? c) && (c <=? hi)
  | CA_class negated k => xorb negated (isctype k c)
  end.

Definition set_has (negated : bool) (atoms : list class_atom) (c : wchar_t)
  : bool :=
  xorb negated (existsb (class_atom_has c) atoms).

Fixpoint matches (r : regex) (w : wstring) : Prop :=
  match r with
  | R_empty => w = []
  | R_char c => w = [c]
  | R_any => exists c, w = [c] /\ line_terminator c = false
  | R_set negated atoms => exists c, w = [c] /\ set_has negated atoms c = true
  | R_seq a b => exists w1 w2, w = w1 ++ w2 /\ matches a w1 /\ matches b w2
  | R_alt a b => matches a w \/ matches b w
  | R_repeat min max a =>
      exists ws, w = concat ws
                 /\ (min <= List.length ws)%nat
                 /\ match max with
                    | Some k => (List.length ws <= k)%nat
                    | None => True
                    end
                 /\ Forall (matches a) ws
  | R_group a => matches a w
  end.

(** The pattern can match the empty string. *)
Fixpoint nullable (r : regex) : bool :=
  match r with
  | R_empty => true
  | R_char _ | R_any | R_set _ _ => false
  | R_seq a b => nullable a && nullable b
  | R_alt a b => nullable a || nullable b
  | R_repeat min _ a => (min =? 0)%nat || nullable a
  | R_group a => nullable a
  end.

(** The code units of [s] from [pos], [len] of them. *)
Definition substr (s : wstring) (pos len : Z) : wstring :=
  firstn (Z.to_nat len) (skipn (Z.to_nat pos) s).

(** A match lies inside the string it was found in and is a word of the
    pattern's language. *)
Definition match_sound (r : regex) (s : wstring) (m : wsmatch) : Prop :=
  0 <= m_position m /\ 0 <= m_length m
  /\ m_position m + m_length m <= wlength s
  /\ matches r (substr s (m_position m) (m_length m)).

(** The contract of the engine: every match an iterator comes to be on is
    sound. *)
Definition engine_sound (engine : wregex -> wstring -> Regex.regex_run)
  : Prop :=
  forall re r s m,
    Parser.compile (re_pattern re) = Some r ->
    In m (Regex.found (engine re s)) ->
    m_empty m = false ->
    match_sound r s m.

End Language.

(** ** SyntaxHighlighter::ForItem *)

(** Modelled from the spec: the class [CatalogItem], which the header
    [catalog.h] declares.  A text item exposes its primary string, a plural
    string with a presence flag, and a format-kind string; these are the four
    members [ForItem] calls.  The strings are taken after
    [str::to_wstring]. *)
Record CatalogItem : Type :=
  { GetString : wstring;
    HasPlural : bool;
    GetPluralString : wstring;
    GetFormatFlag : string }.

(** A value, or the exception that left the call. *)
Inductive result (A : Type) : Type :=
| Ok (a : A)
| Raise (code : error_type).
Arguments Ok {A} a.
Arguments Raise {A} code.

Definition bind {A B : Type} (x : result A) (f : A -> result B) : result B :=
  match x with
  | Ok a => f a
  | Raise code => Raise code
  end.

Notation "x <- c ;; k" := (bind c (fun x => k))
  (at level 61, c at next level, right associativity).

(** The function-local [static] highlighters. *)
Definition basic : SyntaxHighlighter := BasicSyntaxHighlighter.
Definition html : SyntaxHighlighter :=
  RegexSyntaxHighlighter RE_HTML_MARKUP Markup.
Definition placeholders : SyntaxHighlighter :=
  RegexSyntaxHighlighter RE_COMMON_PLACEHOLDERS Placeholder.
Definition php_format : SyntaxHighlighter :=
  RegexSyntaxHighlighter RE_PHP_FORMAT Placeholder.
Definition c_format : SyntaxHighlighter :=
  RegexSyntaxHighlighter RE_C_FORMAT Placeholder.
Definition python_format : SyntaxHighlighter :=
  RegexSyntaxHighlighter RE_PYTHON_FORMAT Placeholder.
Definition ruby_format : SyntaxHighlighter :=
  RegexSyntaxHighlighter RE_RUBY_FORMAT Placeholder.

(** [CompositeSyntaxHighlighter::Add]: [m_sub.push_back(h)]. *)
Definition Add (m_sub : list SyntaxHighlighter) (h : SyntaxHighlighter)
  : list SyntaxHighlighter := m_sub ++ [h].

(** An [int] used as a condition. *)
Definition nonzero (z : Z) : bool := negb (z =? 0).

Section Selector.

Variable engine : wregex -> wstring -> Regex.regex_run.

(** The values of the [TextKind] enumerators, which the header
    [syntaxhighlighter.h] declares. *)
Variable value : TextKind -> Z.

Definition regex_search (s : wstring) (re : wregex) : result bool :=
  match Regex.regex_search (engine re s) with
  | inl code => Raise code
  | inr b => Ok b
  end.

(** [regex_search(item.GetString(), re) ||
     (item.HasPlural() && regex_search(item.GetPluralString(), re))] *)
Definition sniff (item : CatalogItem) (re : wregex) : result bool :=
  b <- regex_search (GetString item) re ;;
  if b then Ok true
  else if HasPlural item then regex_search (GetPluralString item) re
  else Ok false.

Definition ForItem (item : CatalogItem) (kindsMask : Z)
  : result (option SyntaxHighlighter) :=
  let formatFlag := GetFormatFlag item in
  needsHTML <-
    (if nonzero (Z.land kindsMask (value Markup))
     then sniff item RE_HTML_MARKUP else Ok false) ;;
  needsGenericPlaceholders <-
    (if nonzero (Z.land kindsMask (value Placeholder))
     then sniff item RE_COMMON_PLACEHOLDERS else Ok false) ;;
  if negb needsHTML && negb needsGenericPlaceholders
     && String.eqb formatFlag ""
  then
    if nonzero (Z.land kindsMask
                  (Z.lor (value LeadingWhitespace) (value Escape)))
    then Ok (Some basic)
    else Ok None
  else
    let all := [] in
    let all := if needsHTML then Add all html else all in
    let all := if needsGenericPlaceholders then Add all placeholders
               else all in
    let all :=
      if nonzero (Z.land kindsMask (value Placeholder)) then
        if String.eqb formatFlag "php" then Add all php_format
        else if String.eqb formatFlag "c" then Add all c_format
        else if String.eqb formatFlag "python" then Add all python_format
        else if String.eqb formatFlag "ruby" then Add all ruby_format
        else all
      else all in
    let all :=
      if nonzero (Z.land kindsMask
                    (Z.lor (value LeadingWhitespace) (value Escape)))
      then Add all basic else all in
    Ok (Some (CompositeSyntaxHighlighter all)).

(** The mask includes the kind. *)
Definition includes (kindsMask : Z) (k : TextKind) : bool :=
  nonzero (Z.land kindsMask (value k)).

(** The pattern is found in neither string of the item. *)
Definition no_match (re : wregex) (item : CatalogItem) : Prop :=
  regex_search (GetString item) re = Ok false
  /\ (HasPlural item = true ->
      regex_search (GetPluralString item) re = Ok false).

(** The pattern is found in the string. *)
Definition matched (re : wregex) (s : wstring) : bool :=
  match regex_search s re with
  | Ok true => true
  | _ => false
  end.

(** The kind is asked for, and its pattern is found in the item's string or,
    if the item has a plural, in its plural string. *)
Definition needs (item : CatalogItem) (kindsMask : Z) (k : TextKind)
    (re : wregex) : bool :=
  includes kindsMask k
  && (matched re (GetString item)
      || (HasPlural item && matched re (GetPluralString item))).

(** The matcher of the declared format, if it is one of the four known. *)
Definition language_matcher (formatFlag : string) : list SyntaxHighlighter :=
  if String.eqb formatFlag "php" then [php_format]
  else if String.eqb formatFlag "c" then [c_format]
  else if String.eqb formatFlag "python" then [python_format]
  else if String.eqb formatFlag "ruby" then [ruby_format]
  else [].

(** The sub-matchers in the order of priority. *)
Definition in_priority_order (item : CatalogItem) (kindsMask : Z)
  : list SyntaxHighlighter :=
  (if needs item kindsMask Markup RE_HTML_MARKUP then [html] else [])
  ++ (if needs item kindsMask Placeholder RE_COMMON_PLACEHOLDERS
      then [placeholders] else [])
  ++ (if includes kindsMask Placeholder
      then language_matcher (GetFormatFlag item) else [])
  ++ (if includes kindsMask LeadingWhitespace || includes kindsMask Escape
      then [basic] else []).

(** The kind is one the mask asks for; LeadingWhitespace and Escape go
    together, as in the test [ForItem] makes. *)
Definition asked_for (kindsMask : Z) (k : TextKind) : bool :=
  match k with
  | Markup => includes kindsMask Markup
  | Placeholder => includes kindsMask Placeholder
  | LeadingWhitespace | Escape =>
      includes kindsMask LeadingWhitespace || includes kindsMask Escape
  end.

End Selector.

(** ** A reference engine

    A backtracking matcher for compiled patterns, with the classification of
    the C locale.  It stands in for [std::regex] wherever a concrete engine
    is called for; [limited] is the same engine with a bound on the searches
    it completes before it gives up with [error_complexity]. *)

Module Reference.

Definition isctype (k : char_class) (c : wchar_t) : bool :=
  match k with
  | class_d => (48 <=? c) && (c <=? 57)
  | class_w =>
      ((48 <=? c) && (c <=? 57)) || ((65 <=? c) && (c <=? 90))
      || ((97 <=? c) && (c <=? 122)) || (c =? 95)
  | class_s => ((9 <=? c) && (c <=? 13)) || (c =? 32)
  end.

(** [g] after [f]: the lengths [f] can take, each followed by what [g] can
    take from there. *)
Definition then_ends (f g : wstring -> list nat) (s : wstring) : list nat :=
  flat_map (fun n => map (Nat.add n) (g (skipn n s))) (f s).

Fixpoint power (f : wstring -> list nat) (n : nat) : wstring -> list nat :=
  match n with
  | O => fun _ => [0%nat]
  | S n' => then_ends f (power f n')
  end.

(** Up to [max] further iterations, longest first; an iteration that takes
    nothing is not repeated. *)
Fixpoint upto (f : wstring -> list nat) (fuel : nat) (max : option nat)
    (s : wstring) : list nat :=
  match fuel with
  | O => [0%nat]
  | S fuel' =>
      match max with
      | Some O => [0%nat]
      | _ =>
          flat_map
            (fun n =>
               if (n =? 0)%nat then []
               else map (Nat.add n)
                        (upto f fuel' (option_map Nat.pred max) (skipn n s)))
            (f s)
          ++ [0%nat]
      end
  end.

Definition one (p : wchar_t -> bool) (s : wstring) : list nat :=
  match s with
  | c :: _ => if p c then [1%nat] else []
  | [] => []
  end.

(** The lengths of the prefixes of [s] the pattern matches, in the order a
    backtracking matcher reaches them. *)
Fixpoint ends_of (r : regex) (s : wstring) : list nat :=
  match r with
  | R_empty => [0%nat]
  | R_char c => one (Z.eqb c) s
  | R_any => one (fun c => negb (line_terminator c)) s
  | R_set negated atoms => one (set_has isctype negated atoms) s
  | R_seq a b => then_ends (ends_of a) (ends_of b) s
  | R_alt a b => ends_of a s ++ ends_of b s
  | R_repeat min max a =>
      match max with
      | Some k =>
          if (k <? min)%nat then []
          else then_ends (power (ends_of a) min)
                 (upto (ends_of a) (length s) (Some (k - min)%nat)) s
      | None =>
          then_ends (power (ends_of a) min)
            (upto (ends_of a) (length s) None) s
      end
  | R_group a => ends_of a s
  end.

(** The successive matches in [s], the part of the string from [pos] on. *)
Fixpoint matches_from (fuel : nat) (r : regex) (s : wstring) (pos : nat)
  : list wsmatch :=
  match fuel with
  | O => []
  | S fuel' =>
      let step :=
        match s with
        | [] => []
        | _ :: s' => matches_from fuel' r s' (S pos)
        end in
      match ends_of r s with
      | n :: _ =>
          {| m_empty := false; m_position := Z.of_nat pos;
             m_length := Z.of_nat n |}
          :: (if (n =? 0)%nat then step
              else matches_from fuel' r (skipn n s) (pos + n))
      | [] => step
      end
  end.

Definition all_matches (re : wregex) (s : wstring) : list wsmatch :=
  match Parser.compile (re_pattern re) with
  | Some r => matches_from (S (length s)) r s 0
  | None => []
  end.

Definition engine (re : wregex) (s : wstring) : Regex.regex_run :=
  {| Regex.found := all_matches re s; Regex.finish := Regex.no_more_matches |}.

(** The engine that completes [budget] searches and fails in the next. *)
Definition limited (budget : nat) (re : wregex) (s : wstring)
  : Regex.regex_run :=
  let all := all_matches re s in
  {| Regex.found := firstn budget all;
     Regex.finish := if (length all <? budget)%nat
                     then Regex.no_more_matches
                     else Regex.regex_error error_complexity |}.

(** [f] only returns lengths of prefixes that are in the language [Lg]. *)
Definition sound_ends (f : wstring -> list nat) (Lg : wstring -> Prop)
  : Prop :=
  forall s n, In n (f s) -> (n <= length s)%nat /\ Lg (firstn n s).

Definition within_max (max : option nat) (n : nat) : Prop :=
  match max with
  | Some k => (n <= k)%nat
  | None => True
  end.

End Reference.

(** An assignment of values to the enumerators, one bit each, as a mask of
    flags calls for. *)
Definition bit_value (k : TextKind) : Z :=
  match k with
  | LeadingWhitespace => 0x0001
  | Escape => 0x0002
  | Markup => 0x0004
  | Placeholder => 0x0008
  end.

(** ** Sample items *)

Definition plain_item : CatalogItem :=
  {| GetString := L "Hello  world";
     HasPlural := true;
     GetPluralString := L "Hello  worlds";
     GetFormatFlag := "" |}.

Definition c_item : CatalogItem :=
  {| GetString := L "<b>%d</b> file in {dir}";
     HasPlural := true;
     GetPluralString := L "<b>%d</b> files in {dir}";
     GetFormatFlag := "c" |}.

Definition java_item : CatalogItem :=
  {| GetString := L "Hello, world";
     HasPlural := false;
     GetPluralString := [];
     GetFormatFlag := "java" |}.

(** An x followed by 2^31 + 1 spaces: a string of 2147483650 code units,
    more than an [int] can count. *)
Definition x_and_spaces : wstring := 120 :: repeat 32 (Z.to_nat 2147483649).

(** 2^32 + 1 times the letter x and then two spaces: 4294967299 code
    units. *)
Definition xs_and_two_spaces : wstring :=
  repeat 120 (Z.to_nat 4294967296) ++ 120 :: [32; 32].

(** ** Further notions used in the statements *)

(** Blank for the matcher: blank for ICU, or the non-breaking space, which
    the forward pass tests for by its code point. *)
Definition blankish (u_isblank : wchar_t -> bool) (c : wchar_t) : bool :=
  u_isblank c || (c =? NBSP).

(** The positions from [lo] up to [hi] of [s] hold blanks, U+00A0
    counted. *)
Definition blank_between (u_isblank : wchar_t -> bool) (s : wstring)
    (lo hi : Z) : Prop :=
  forall i, lo <= i < hi ->
            exists c, nth_error s (Z.to_nat i) = Some c
                      /\ blankish u_isblank c = true.

(** The run that is open, if one is, began at a position already passed and
    holds blanks only. *)
Definition open_run_blank (u_isblank : wchar_t -> bool) (pre : wstring)
    (bbp : Z) : Prop :=
  bbp = -1
  \/ (0 <= bbp < wlength pre
      /\ blank_between u_isblank pre bbp (wlength pre)).


(** No two blanks next to each other. *)
Fixpoint single_blanks (u_isblank : wchar_t -> bool) (s : wstring) : bool :=
  match s with
  | a :: rest =>
      match rest with
      | b :: _ => negb (u_isblank a && u_isblank b)
      | [] => true
      end && single_blanks u_isblank rest
  | [] => true
  end.

(** [pre] is made of whole steps of the forward pass: a code point that is
    not a backslash, or a backslash together with the code point after it.
    These are the prefixes after which the loop variable of the pass stands
    on the next code point. *)
Fixpoint whole_steps (pre : wstring) : bool :=
  match pre with
  | [] => true
  | c :: rest =>
      if c =? BACKSLASH then
        match rest with
        | [] => false
        | _ :: rest' => whole_steps rest'
        end
      else whole_steps rest
  end.

(** What an Escape span stands on: a backslash and, after it, one of the
    code points of the [switch]. *)
Definition on_escape (s : wstring) (h : span) : Prop :=
  sp_end h = sp_start h + 2
  /\ 0 <= sp_start h
  /\ nth_error s (Z.to_nat (sp_start h)) = Some BACKSLASH
  /\ exists e, nth_error s (S (Z.to_nat (sp_start h))) = Some e
               /\ Basic.is_escape_char e = true.


(** The patterns a highlighter searches with. *)
Fixpoint patterns_of (h : SyntaxHighlighter) : list wregex :=
  match h with
  | BasicSyntaxHighlighter => []
  | CompositeSyntaxHighlighter m_sub =>
      (fix all (l : list SyntaxHighlighter) : list wregex :=
         match l with
         | [] => []
         | h' :: rest => patterns_of h' ++ all rest
         end) m_sub
  | RegexSyntaxHighlighter m_re _ => [m_re]
  end.




(** The reference engine, failing with [code] in the search after the
    first [budget] matches. *)
Definition failing (code : error_type) (budget : nat) (re : wregex)
    (s : wstring) : Regex.regex_run :=
  {| Regex.found := firstn budget (Reference.all_matches re s);
     Regex.finish := Regex.regex_error code |}.

(** * Properties *)

(** ** The structural matcher *)

Section BasicFacts.

Variable u_isblank : wchar_t -> bool.

Local Abbreviation whitespace := (Basic.whitespace u_isblank).
Local Abbreviation scan := (Basic.scan u_isblank).
Local Abbreviation leading := (Basic.leading u_isblank).
Local Abbreviation trailing := (Basic.trailing u_isblank).
Local Abbreviation blank_prefix := (Basic.blank_prefix u_isblank).

(** The loop moves one or two code points at a time: induction that allows
    the hypothesis on the tail and on the tail's tail. *)
Lemma wstring_ind2 (P : wstring -> Prop) :
  P [] ->
  (forall c rest,
      P rest -> (forall e rest', rest = e :: rest' -> P rest') -> P (c :: rest)) ->
  forall s, P s.
Proof.
  intros Hnil Hcons s.
  assert (H : P s /\ (forall e s', s = e :: s' -> P s')).
  { induction s as [|c s IH].
    - split; [exact Hnil | discriminate].
    - destruct IH as [IH1 IH2]. split.
      + apply Hcons; assumption.
      + intros e s' E. injection E as _ <-. exact IH1. }
  exact (proj1 H).
Qed.

Lemma wlength_cons (c : wchar_t) (s : wstring) :
  wlength (c :: s) = wlength s + 1.
Proof. unfold wlength. simpl length. lia. Qed.

Lemma wlength_nonneg (s : wstring) : 0 <= wlength s.
Proof. unfold wlength. lia. Qed.

(** The three cases of the chain for a code point other than U+00A0. *)
Lemma whitespace_blank c pos bbp :
  c <> NBSP -> u_isblank c = true ->
  whitespace c pos bbp = ([], if bbp =? -1 then pos else bbp).
Proof.
  intros Hn Hb. unfold Basic.whitespace.
  destruct (Z.eqb_spec c NBSP); [contradiction|]. now rewrite Hb.
Qed.

Lemma whitespace_other c pos bbp :
  c <> NBSP -> u_isblank c = false ->
  whitespace c pos bbp = (close_run pos bbp, -1).
Proof.
  intros Hn Hb. unfold Basic.whitespace, close_run.
  destruct (Z.eqb_spec c NBSP); [contradiction|]. rewrite Hb.
  destruct (Z.eqb_spec bbp (-1)) as [->|]; reflexivity.
Qed.

Lemma scan_blank c rest pos bbp :
  c <> NBSP -> u_isblank c = true -> c <> BACKSLASH ->
  scan (c :: rest) pos bbp
  = scan rest (pos + 1) (if bbp =? -1 then pos else bbp).
Proof.
  intros Hn Hb Hs. simpl. rewrite (whitespace_blank _ _ _ Hn Hb).
  destruct (Z.eqb_spec c BACKSLASH); [contradiction | reflexivity].
Qed.


(** A code point that is not blank, met with a run open: the run is closed
    and the code point is then handled as with no run open. *)
Lemma scan_other c rest pos bbp :
  c <> NBSP -> u_isblank c = false ->
  scan (c :: rest) pos bbp = close_run pos bbp ++ scan (c :: rest) pos (-1).
Proof.
  intros Hn Hb. simpl. rewrite !(whitespace_other _ _ _ Hn Hb).
  change (close_run pos (-1)) with (@nil span).
  destruct (c =? BACKSLASH); [destruct rest|]; simpl; now rewrite ?app_nil_r.
Qed.

Lemma is_escape_char_spec (e : wchar_t) :
  Basic.is_escape_char e = true
  <-> In e [48; 97; 98; 102; 110; 114; 116; 118; 92].
Proof.
  unfold Basic.is_escape_char. rewrite existsb_exists. simpl. split.
  - intros [x [Hx E]]. apply Z.eqb_eq in E. subst x. intuition auto.
  - intros H. exists e. rewrite Z.eqb_refl. intuition auto.
Qed.

Lemma scan_one_step c rest pos bbp :
  c <> BACKSLASH ->
  scan (c :: rest) pos bbp
  = fst (whitespace c pos bbp) ++ scan rest (pos + 1) (snd (whitespace c pos bbp)).
Proof.
  intros Hc. cbn [Basic.scan]. destruct (whitespace c pos bbp) as [hl bbp'].
  destruct (Z.eqb_spec c BACKSLASH); [contradiction | reflexivity].
Qed.

Lemma scan_two_steps e rest pos bbp :
  scan (BACKSLASH :: e :: rest) pos bbp
  = fst (whitespace BACKSLASH pos bbp) ++ Basic.escape pos e
      ++ scan rest (pos + 2) (snd (whitespace BACKSLASH pos bbp)).
Proof.
  cbn [Basic.scan]. now destruct (whitespace BACKSLASH pos bbp) as [hl bbp'].
Qed.




(** C1, as amended.  On "  hello  " the matcher calls back three times:
    [0,2) for the leading blanks, [7,9) for the trailing ones and [0,2) once
    more, from the forward pass, when the h closes the run of two blanks the
    string begins with.  The trailing run is never closed and is not
    reported again. *)
Theorem C1_hello :
  u_isblank 32 = true ->
  (forall c, In c (L "hello") -> u_isblank c = false) ->
  Basic.Highlight u_isblank (L "  hello  ")
  = [Span 0 2 LeadingWhitespace; Span 7 9 LeadingWhitespace;
     Span 0 2 LeadingWhitespace].
Proof.
  intros H32 H.
  assert (Hh : u_isblank 104 = false) by (apply H; simpl; tauto).
  assert (He : u_isblank 101 = false) by (apply H; simpl; tauto).
  assert (Hl : u_isblank 108 = false) by (apply H; simpl; tauto).
  assert (Ho : u_isblank 111 = false) by (apply H; simpl; tauto).
  unfold Basic.Highlight, Basic.leading, Basic.trailing.
  cbn. rewrite ?H32, ?Hh, ?Ho. cbn.
  unfold Basic.whitespace. cbn. rewrite ?H32, ?Hh, ?He, ?Hl, ?Ho. cbn.
  reflexivity.
Qed.

(** *** Bounds *)

(** [int(x)] is [x] when [x] is in the range of [int]. *)
Lemma int_in_range (x : Z) : -2147483648 <= x <= INT_MAX -> int x = x.
Proof.
  unfold int, INT_MAX. intros H. rewrite Z.mod_small by lia. lia.
Qed.

Lemma blank_prefix_bounds (s : wstring) :
  forall n w, Basic.blank_prefix u_isblank s n = Some w ->
              n <= w < n + wlength s.
Proof.
  induction s as [|c s IH]; intros n w; simpl.
  - discriminate.
  - rewrite wlength_cons. pose proof (wlength_nonneg s).
    destruct (u_isblank c).
    + intros E. apply IH in E. lia.
    + intros [= <-]. lia.
Qed.

Lemma wlength_rev (s : wstring) : wlength (rev s) = wlength s.
Proof. unfold wlength. now rewrite length_rev. Qed.

Lemma wlength_append (s1 s2 : wstring) :
  wlength (s1 ++ s2) = wlength s1 + wlength s2.
Proof. unfold wlength. rewrite length_app. lia. Qed.

(** The loop stops on the first code point that is not blank. *)
Lemma blank_prefix_stops (bl : wstring) (c : wchar_t) (rest : wstring) :
  Forall (fun x => u_isblank x = true) bl -> u_isblank c = false ->
  forall n, blank_prefix (bl ++ c :: rest) n = Some (n + wlength bl).
Proof.
  induction 1 as [|x bl Hx _ IH]; intros Hc n; simpl.
  - rewrite Hc. f_equal. unfold wlength. simpl. lia.
  - rewrite Hx, IH by exact Hc. f_equal. rewrite wlength_cons. lia.
Qed.


Lemma trailing_exact (bl rest : wstring) (c : wchar_t) :
  Forall (fun x => u_isblank x = true) bl ->
  u_isblank c = false ->
  trailing (rest ++ c :: bl)
  = (if int (wlength bl) =? 0 then []
     else [Span (int (int (wlength (rest ++ c :: bl)) - int (wlength bl)))
             (int (wlength (rest ++ c :: bl))) LeadingWhitespace]).
Proof.
  intros Hbl Hc. unfold Basic.trailing.
  replace (rev (rest ++ c :: bl)) with (rev bl ++ c :: rev rest)
    by (rewrite rev_app_distr; simpl; now rewrite <- app_assoc).
  rewrite blank_prefix_stops, wlength_rev; auto.
  now apply Forall_rev.
Qed.

(** On a string of at most [INT_MAX] code units the conversions of the edge
    loops change nothing. *)
Lemma leading_in_range (s : wstring) :
  wlength s <= INT_MAX ->
  leading s
  = match Basic.blank_prefix u_isblank s 0 with
    | Some w => if w =? 0 then [] else [Span 0 w LeadingWhitespace]
    | None => []
    end.
Proof.
  intros Hlen. unfold Basic.leading.
  destruct (Basic.blank_prefix u_isblank s 0) as [w|] eqn:E; [|reflexivity].
  apply blank_prefix_bounds in E. cbv zeta.
  now rewrite int_in_range by lia.
Qed.

Lemma trailing_in_range (s : wstring) :
  wlength s <= INT_MAX ->
  trailing s
  = match Basic.blank_prefix u_isblank (rev s) 0 with
    | Some w =>
        if w =? 0 then []
        else [Span (wlength s - w) (wlength s) LeadingWhitespace]
    | None => []
    end.
Proof.
  intros Hlen. unfold Basic.trailing. pose proof (wlength_nonneg s).
  destruct (Basic.blank_prefix u_isblank (rev s) 0) as [w|] eqn:E;
    [|reflexivity].
  apply blank_prefix_bounds in E.
  assert (wlength (rev s) = wlength s)
    by (unfold wlength; now rewrite length_rev).
  cbv zeta. rewrite (int_in_range (wlength s)), (int_in_range w) by lia.
  now rewrite int_in_range by lia.
Qed.

Lemma leading_ok (s : wstring) :
  wlength s <= INT_MAX -> Forall (span_ok s) (leading s).
Proof.
  intros Hlen. rewrite leading_in_range by exact Hlen.
  destruct (Basic.blank_prefix u_isblank s 0) as [w|] eqn:E; [|constructor].
  apply blank_prefix_bounds in E.
  destruct (Z.eqb_spec w 0); constructor; [|constructor].
  unfold span_ok; simpl. lia.
Qed.

Lemma trailing_ok (s : wstring) :
  wlength s <= INT_MAX -> Forall (span_ok s) (trailing s).
Proof.
  intros Hlen. rewrite trailing_in_range by exact Hlen.
  destruct (Basic.blank_prefix u_isblank (rev s) 0) as [w|] eqn:E;
    [|constructor].
  apply blank_prefix_bounds in E.
  assert (wlength (rev s) = wlength s)
    by (unfold wlength; now rewrite length_rev).
  destruct (Z.eqb_spec w 0); constructor; [|constructor].
  unfold span_ok; simpl. lia.
Qed.

Lemma within_weaken lo hi lo' hi' (out : list span) :
  lo' <= lo -> hi <= hi' ->
  Forall (within lo hi) out -> Forall (within lo' hi') out.
Proof.
  intros H1 H2. apply Forall_impl. unfold within. intros h. lia.
Qed.

Lemma whitespace_ok c pos bbp :
  0 <= pos -> run_state pos bbp ->
  Forall (within 0 (pos + 1)) (fst (whitespace c pos bbp))
  /\ run_state (pos + 1) (snd (whitespace c pos bbp)).
Proof.
  intros Hpos Hst. unfold Basic.whitespace, run_state in *.
  destruct (c =? NBSP); [|destruct (u_isblank c)]; simpl.
  - split; [|lia]. repeat constructor; simpl; lia.
  - split; [constructor|]. destruct (Z.eqb_spec bbp (-1)); lia.
  - destruct (Z.eqb_spec bbp (-1)); simpl; [split; [constructor | lia]|].
    split; [|lia].
    destruct (Z.geb_spec (pos - bbp) 2); repeat constructor; simpl; lia.
Qed.

Lemma escape_ok pos e :
  0 <= pos -> Forall (within 0 (pos + 2)) (Basic.escape pos e).
Proof.
  intros Hpos. unfold Basic.escape.
  destruct (Basic.is_escape_char e); repeat constructor; simpl; lia.
Qed.

Lemma scan_ok (s : wstring) :
  forall pos bbp,
    0 <= pos -> run_state pos bbp ->
    Forall (within 0 (pos + wlength s)) (scan s pos bbp).
Proof.
  induction s as [|c rest IH1 IH2] using wstring_ind2; intros pos bbp Hpos Hst.
  - constructor.
  - cbn [Basic.scan].
    destruct (whitespace_ok c pos bbp Hpos Hst) as [Hhl Hst'].
    destruct (whitespace c pos bbp) as [hl bbp']. cbn [fst snd] in *.
    rewrite wlength_cons. pose proof (wlength_nonneg rest).
    destruct (c =? BACKSLASH).
    + destruct rest as [|e rest'].
      * eapply within_weaken; [| |exact Hhl]; lia.
      * rewrite wlength_cons in *. pose proof (wlength_nonneg rest').
        rewrite !Forall_app. repeat split.
        -- eapply within_weaken; [| |exact Hhl]; lia.
        -- eapply within_weaken; [| |apply escape_ok]; lia.
        -- eapply within_weaken;
             [| |apply (IH2 e rest' eq_refl (pos + 2) bbp')]; try lia.
           unfold run_state in *. lia.
    + rewrite Forall_app. split.
      * eapply within_weaken; [| |exact Hhl]; lia.
      * eapply within_weaken; [| |apply (IH1 (pos + 1) bbp')]; try lia.
        exact Hst'.
Qed.

(** The three loops, one after the other; on the empty string none of them
    has anything to report. *)
Lemma Highlight_three_loops (s : wstring) :
  Basic.Highlight u_isblank s = (leading s ++ trailing s) ++ scan s 0 (-1).
Proof.
  destruct s; [reflexivity|]. unfold Basic.Highlight. now rewrite app_assoc.
Qed.

(** After a prefix made of whole steps the pass has delivered what it
    delivers on the prefix alone, and goes on from the code point that
    follows with [blank_block_pos] at -1 or at a position of the prefix. *)
Lemma scan_prefix (pre : wstring) :
  whole_steps pre = true ->
  forall pos bbp,
    0 <= pos -> run_state pos bbp ->
    exists bbp',
      run_state (pos + wlength pre) bbp'
      /\ forall rest,
           scan (pre ++ rest) pos bbp
           = scan pre pos bbp ++ scan rest (pos + wlength pre) bbp'.
Proof.
  induction pre as [|c pre IH1 IH2] using wstring_ind2;
    intros Hw pos bbp Hpos Hst.
  - exists bbp.
    replace (pos + wlength []) with pos by (unfold wlength; simpl; lia).
    split; [exact Hst | reflexivity].
  - cbn [whole_steps] in Hw.
    destruct (whitespace_ok c pos bbp Hpos Hst) as [_ Hst'].
    destruct (Z.eqb_spec c BACKSLASH) as [->|Hc].
    + destruct pre as [|e pre']; [discriminate|].
      destruct (IH2 e pre' eq_refl Hw (pos + 2)
                  (snd (whitespace BACKSLASH pos bbp))) as [bbp' [Hst'' H]];
        [lia | unfold run_state in *; lia |].
      exists bbp'. rewrite !wlength_cons.
      replace (pos + (wlength pre' + 1 + 1)) with (pos + 2 + wlength pre')
        by lia.
      split; [exact Hst''|]. intros rest. cbn [app].
      rewrite !scan_two_steps, H. now rewrite <- !app_assoc.
    + destruct (IH1 Hw (pos + 1) (snd (whitespace c pos bbp)))
        as [bbp' [Hst'' H]]; [lia | exact Hst' |].
      exists bbp'. rewrite wlength_cons.
      replace (pos + (wlength pre + 1)) with (pos + 1 + wlength pre) by lia.
      split; [exact Hst''|]. intros rest. cbn [app].
      rewrite !scan_one_step, H by exact Hc. now rewrite <- app_assoc.
Qed.

(** C3, as amended.  Let the forward pass come to stand on a backslash, at
    position [pos], after a prefix [pre] made of whole steps; [bbp] is the
    value of [blank_block_pos] there.  The backslash, not being blank, first
    closes the run that is open, as any other code point does, which emits
    the span of the run when it has two code points or more.  Then, if a
    code point [e] follows and is one of 0 a b f n r t v and backslash, the
    pass emits the one span [pos, pos+2) of kind Escape; if [e] is anything
    else it emits no Escape span; either way the pass goes on two positions
    further with no run open, so [e] is never looked at as a blank, a run
    boundary, a non-breaking space or a backslash.  If nothing follows the
    backslash the pass ends after the closing of the run.  The strings have
    at most [INT_MAX] code units. *)
Theorem C3_backslash_step (pre : wstring) :
  u_isblank BACKSLASH = false ->
  whole_steps pre = true ->
  exists bbp,
    run_state (wlength pre) bbp
    /\ (forall rest,
           scan (pre ++ rest) 0 (-1)
           = scan pre 0 (-1) ++ scan rest (wlength pre) bbp)
    /\ (forall e rest,
           wlength (pre ++ BACKSLASH :: e :: rest) <= INT_MAX ->
           In e [48; 97; 98; 102; 110; 114; 116; 118; 92] ->
           Basic.Highlight u_isblank (pre ++ BACKSLASH :: e :: rest)
           = (leading (pre ++ BACKSLASH :: e :: rest)
                ++ trailing (pre ++ BACKSLASH :: e :: rest))
               ++ scan pre 0 (-1)
               ++ close_run (wlength pre) bbp
               ++ Span (wlength pre) (wlength pre + 2) Escape
                    :: scan rest (wlength pre + 2) (-1))
    /\ (forall e rest,
           wlength (pre ++ BACKSLASH :: e :: rest) <= INT_MAX ->
           ~ In e [48; 97; 98; 102; 110; 114; 116; 118; 92] ->
           Basic.Highlight u_isblank (pre ++ BACKSLASH :: e :: rest)
           = (leading (pre ++ BACKSLASH :: e :: rest)
                ++ trailing (pre ++ BACKSLASH :: e :: rest))
               ++ scan pre 0 (-1)
               ++ close_run (wlength pre) bbp
               ++ scan rest (wlength pre + 2) (-1))
    /\ (wlength (pre ++ [BACKSLASH]) <= INT_MAX ->
        Basic.Highlight u_isblank (pre ++ [BACKSLASH])
        = (leading (pre ++ [BACKSLASH]) ++ trailing (pre ++ [BACKSLASH]))
            ++ scan pre 0 (-1) ++ close_run (wlength pre) bbp).
Proof.
  intros Hb Hw.
  assert (Hn : BACKSLASH <> NBSP) by discriminate.
  destruct (scan_prefix pre Hw 0 (-1) ltac:(lia) (or_introl eq_refl))
    as [bbp [Hst H]].
  rewrite Z.add_0_l in *.
  exists bbp. split; [exact Hst | split; [exact H|]].
  split; [|split].
  - intros e rest _ He. rewrite Highlight_three_loops, H, scan_two_steps.
    rewrite (whitespace_other _ _ _ Hn Hb). cbn [fst snd].
    apply is_escape_char_spec in He. unfold Basic.escape. now rewrite He.
  - intros e rest _ He. rewrite Highlight_three_loops, H, scan_two_steps.
    rewrite (whitespace_other _ _ _ Hn Hb). cbn [fst snd].
    unfold Basic.escape. destruct (Basic.is_escape_char e) eqn:E;
      [|reflexivity].
    apply is_escape_char_spec in E. contradiction.
  - intros _. rewrite Highlight_three_loops, H. cbn [Basic.scan].
    now rewrite (whitespace_other _ _ _ Hn Hb).
Qed.

(** The structural matcher emits only spans that satisfy the invariant, on
    a string of at most [INT_MAX] code units. *)
Lemma Basic_Highlight_ok (s : wstring) :
  wlength s <= INT_MAX ->
  Forall (span_ok s) (Basic.Highlight u_isblank s).
Proof.
  intros Hlen. unfold Basic.Highlight. destruct s as [|c s]; [constructor|].
  rewrite !Forall_app. repeat split.
  - now apply leading_ok.
  - now apply trailing_ok.
  - generalize (scan_ok (c :: s) 0 (-1) ltac:(lia) (or_introl eq_refl)).
    apply Forall_impl. unfold within, span_ok. intros h. lia.
Qed.

(** *** Order of the callbacks *)

Lemma starts_above_nil b : starts_above b [].
Proof. split; constructor. Qed.

Lemma starts_above_weaken b b' out :
  b' <= b -> starts_above b out -> starts_above b' out.
Proof.
  intros Hb [H1 H2]. split; [exact H1|].
  revert H2. apply Forall_impl. intros h. lia.
Qed.

Lemma starts_above_cons b h out :
  b <= sp_start h -> starts_above (sp_start h + 1) out ->
  starts_above b (h :: out).
Proof.
  intros Hb [H1 H2]. split.
  - unfold increasing_starts, starts in *. simpl. constructor; [exact H1|].
    rewrite Forall_map. revert H2. apply Forall_impl. intros x. lia.
  - constructor; [exact Hb|]. revert H2. apply Forall_impl. intros x. lia.
Qed.

Lemma scan_starts (s : wstring) :
  u_isblank BACKSLASH = false ->
  ~ In NBSP s ->
  forall pos bbp,
    0 <= pos -> run_state pos bbp ->
    starts_above (if bbp =? -1 then pos else bbp) (scan s pos bbp).
Proof.
  intros Hbs.
  induction s as [|c rest IH1 IH2] using wstring_ind2;
    intros Hnb pos bbp Hpos Hst.
  - apply starts_above_nil.
  - assert (Hc : c <> NBSP) by (intros ->; apply Hnb; now left).
    assert (Hrest : ~ In NBSP rest) by (intros H; apply Hnb; now right).
    destruct (u_isblank c) eqn:Hb.
    + assert (Hs : c <> BACKSLASH) by (intros ->; congruence).
      rewrite scan_blank by assumption.
      set (bbp' := if bbp =? -1 then pos else bbp).
      assert (Hst' : run_state (pos + 1) bbp' /\ bbp' <> -1).
      { unfold run_state, bbp' in *. destruct (Z.eqb_spec bbp (-1)); lia. }
      destruct Hst' as [Hst' Hne].
      specialize (IH1 Hrest (pos + 1) bbp' ltac:(lia) Hst').
      destruct (Z.eqb_spec bbp' (-1)); [contradiction | exact IH1].
    + rewrite scan_other by assumption.
      assert (Hgo : starts_above pos (scan (c :: rest) pos (-1))).
      { cbn [Basic.scan]. rewrite (whitespace_other _ _ _ Hc Hb).
        change (close_run pos (-1)) with (@nil span). cbn [app].
        destruct (c =? BACKSLASH).
        - destruct rest as [|e rest']; [apply starts_above_nil|].
          assert (Hrest' : ~ In NBSP rest')
            by (intros H; apply Hrest; now right).
          specialize (IH2 e rest' eq_refl Hrest' (pos + 2) (-1)
                          ltac:(lia) (or_introl eq_refl)).
          cbn [Z.eqb] in IH2. unfold Basic.escape.
          destruct (Basic.is_escape_char e); cbn [app].
          + apply starts_above_cons; simpl; [lia|].
            eapply starts_above_weaken; [|exact IH2]. lia.
          + eapply starts_above_weaken; [|exact IH2]. lia.
        - specialize (IH1 Hrest (pos + 1) (-1) ltac:(lia) (or_introl eq_refl)).
          cbn [Z.eqb] in IH1.
          eapply starts_above_weaken; [|exact IH1]. lia. }
      unfold close_run.
      destruct (Z.eqb_spec bbp (-1)); [exact Hgo|].
      assert (bbp < pos) by (unfold run_state in Hst; lia).
      destruct (pos - bbp >=? 2); cbn [app].
      * apply starts_above_cons; simpl; [lia|].
        eapply starts_above_weaken; [|exact Hgo]. lia.
      * eapply starts_above_weaken; [|exact Hgo]. lia.
Qed.

Lemma edges_increasing (s : wstring) :
  wlength s <= INT_MAX ->
  increasing_starts (leading s ++ trailing s).
Proof.
  intros Hlen. rewrite leading_in_range, trailing_in_range by exact Hlen.
  destruct (Basic.blank_prefix u_isblank (rev s) 0) as [w'|] eqn:E';
    [apply blank_prefix_bounds in E'|].
  - assert (wlength (rev s) = wlength s)
      by (unfold wlength; now rewrite length_rev).
    destruct (Basic.blank_prefix u_isblank s 0) as [w|];
      [destruct (w =? 0)|]; destruct (w' =? 0); cbn [app];
      unfold increasing_starts, starts; simpl; repeat constructor. lia.
  - rewrite app_nil_r.
    destruct (Basic.blank_prefix u_isblank s 0) as [w|];
      [destruct (w =? 0)|]; unfold increasing_starts, starts; simpl;
      repeat constructor.
Qed.

(** C2, as amended.  On a string of at most [INT_MAX] code units (beyond
    that the positions no longer fit the [int] they are passed as), the
    callbacks of one call come in two groups: the edge spans (leading, then
    trailing) and after them the spans of the forward pass.  Starts increase
    strictly within the edge group, and within the forward pass when the
    string holds no U+00A0; the backslash is taken not to be blank.  Nothing
    is claimed across the two groups. *)
Theorem C2_starts_by_pass (s : wstring) :
  u_isblank BACKSLASH = false ->
  wlength s <= INT_MAX ->
  Basic.Highlight u_isblank s = (leading s ++ trailing s) ++ scan s 0 (-1)
  /\ increasing_starts (leading s ++ trailing s)
  /\ (~ In NBSP s -> increasing_starts (scan s 0 (-1))).
Proof.
  intros Hbs Hlen. repeat split.
  - destruct s; [reflexivity|]. unfold Basic.Highlight. now rewrite app_assoc.
  - now apply edges_increasing.
  - intros Hnb.
    exact (proj1 (scan_starts s Hbs Hnb 0 (-1) ltac:(lia) (or_introl eq_refl))).
Qed.

End BasicFacts.

(** ** The pattern matcher *)

Section RegexFacts.

Import Regex.

(** The loop delivers every match when the searches end without a further
    match, and every match but the last one found when a search fails. *)
Lemma loop_spec (kind : TextKind) (ms : list wsmatch) :
  forall m fin,
    loop kind m ms fin
    = match fin with
      | no_more_matches => (flat_map (callback kind) (m :: ms), Returned)
      | regex_error code =>
          (flat_map (callback kind) (removelast (m :: ms)), Thrown code)
      end.
Proof.
  induction ms as [|m' ms IH]; intros m fin.
  - simpl. destruct fin; [now rewrite app_nil_r | reflexivity].
  - cbn [loop]. rewrite IH. destruct fin; reflexivity.
Qed.

Lemma try_block_spec (run : regex_run) (kind : TextKind) :
  try_block run kind
  = match finish run with
    | no_more_matches => (flat_map (callback kind) (found run), Returned)
    | regex_error code =>
        (flat_map (callback kind) (removelast (found run)), Thrown code)
    end.
Proof.
  unfold try_block, search. destruct (found run) as [|m ms].
  - destruct (finish run); reflexivity.
  - apply loop_spec.
Qed.


(** C5, as amended.  When a search fails with [error_complexity] or
    [error_stack], [Highlight] returns normally; it has then delivered the
    matches found before the failure except the last of them, which was
    still waiting for the search that failed, and it delivers nothing more.
    A failure with any other code leaves [Highlight] as that exception,
    after the same callbacks. *)
Theorem C5_search_failure (run : regex_run) (kind : TextKind)
    (code : error_type) :
  finish run = regex_error code ->
  Highlight run kind
  = (flat_map (callback kind) (removelast (found run)),
     if resource_exhaustion code then Returned else Thrown code).
Proof.
  intros E. unfold Highlight. rewrite try_block_spec, E.
  destruct code; reflexivity.
Qed.

(** What is delivered was found. *)
Lemma Highlight_delivers_found (run : regex_run) (kind : TextKind) (h : span) :
  In h (fst (Highlight run kind)) ->
  exists m, In m (found run) /\ m_empty m = false
            /\ h = Span (m_position m) (m_position m + m_length m) kind.
Proof.
  unfold Highlight. rewrite try_block_spec.
  assert (Hcb : forall l, In h (flat_map (callback kind) l) ->
                          exists m, In m l /\ m_empty m = false
                                    /\ h = Span (m_position m)
                                             (m_position m + m_length m) kind).
  { intros l Hin. apply in_flat_map in Hin as [m [Hm Hc]]. exists m.
    unfold callback in Hc. destruct (m_empty m); [contradiction|].
    destruct Hc as [<-|[]]. auto. }
  assert (Hrl : forall (l : list wsmatch) m, In m (removelast l) -> In m l).
  { induction l as [|x [|y l] IH]; simpl; intros m Hm; try contradiction.
    destruct Hm as [->|Hm]; [now left | right; apply IH, Hm]. }
  destruct (finish run); simpl; intros Hin; apply Hcb in Hin.
  - exact Hin.
  - destruct Hin as [m [Hm Hrest]]. exists m. split; [apply Hrl, Hm | exact Hrest].
Qed.

End RegexFacts.

(** ** The composite matcher and the three kinds together *)

Section HighlighterFacts.

Variable u_isblank : wchar_t -> bool.
Variable engine : wregex -> wstring -> Regex.regex_run.

Local Abbreviation Highlight := (Highlight u_isblank engine).

Lemma Highlight_composite (m_sub : list SyntaxHighlighter) (s : wstring) :
  Highlight (CompositeSyntaxHighlighter m_sub) s
  = for_each_sub (fun h => Highlight h s) m_sub.
Proof.
  induction m_sub as [|h rest IH]; [reflexivity|].
  cbn [for_each_sub]. rewrite <- IH. reflexivity.
Qed.

(** If no sub-highlighter throws, each one's callbacks form a block, and the
    blocks follow each other in the order of the list. *)
Lemma for_each_sub_returned (hl : SyntaxHighlighter -> list span * outcome)
    (m_sub : list SyntaxHighlighter) :
  Forall (fun h => snd (hl h) = Returned) m_sub ->
  for_each_sub hl m_sub = (concat (map (fun h => fst (hl h)) m_sub), Returned).
Proof.
  induction 1 as [|h rest Hh _ IH]; [reflexivity|].
  cbn [for_each_sub map concat]. destruct (hl h) as [out o].
  simpl in Hh. subst o. now rewrite IH.
Qed.

(** Whatever happens, what was delivered comes from the sub-highlighters. *)
Lemma for_each_sub_Forall (P : span -> Prop)
    (hl : SyntaxHighlighter -> list span * outcome)
    (m_sub : list SyntaxHighlighter) :
  Forall (fun h => Forall P (fst (hl h))) m_sub ->
  Forall P (fst (for_each_sub hl m_sub)).
Proof.
  induction 1 as [|h rest Hh _ IH]; [constructor|].
  cbn [for_each_sub]. destruct (hl h) as [out [|code]]; simpl in *.
  - destruct (for_each_sub hl rest) as [out' o]. simpl in *.
    apply Forall_app. now split.
  - exact Hh.
Qed.

Lemma SyntaxHighlighter_induction (P : SyntaxHighlighter -> Prop) :
  P BasicSyntaxHighlighter ->
  (forall m_sub, Forall P m_sub -> P (CompositeSyntaxHighlighter m_sub)) ->
  (forall m_re m_kind, P (RegexSyntaxHighlighter m_re m_kind)) ->
  forall h, P h.
Proof.
  intros HB HC HR. fix IH 1. intros [|m_sub|m_re m_kind].
  - exact HB.
  - apply HC. induction m_sub as [|h rest IHl]; constructor.
    + apply IH.
    + exact IHl.
  - apply HR.
Qed.

(** C8.  The matcher for "ruby" and the matcher for "c" emit the same
    callbacks on every string and end the same way: [RE_RUBY_FORMAT] and
    [RE_C_FORMAT] are built from the same pattern text with the same flags,
    and compile to the same grammar. *)
Theorem C8_ruby_is_c :
  RE_RUBY_FORMAT = RE_C_FORMAT
  /\ Parser.compile (re_pattern RE_RUBY_FORMAT)
     = Parser.compile (re_pattern RE_C_FORMAT)
  /\ forall s, Highlight ruby_format s = Highlight c_format s.
Proof.
  assert (E : RE_RUBY_FORMAT = RE_C_FORMAT) by reflexivity.
  split; [exact E | split].
  - now rewrite E.
  - intros s. unfold ruby_format, c_format. now rewrite E.
Qed.

End HighlighterFacts.

(** ** The patterns and the engine *)

Section LanguageFacts.

Variable isctype : char_class -> wchar_t -> bool.

Lemma matches_nil_nullable (r : regex) :
  matches isctype r [] -> nullable r = true.
Proof.
  induction r as [|c| |neg atoms|a IHa b IHb|a IHa b IHb|mn mx a IHa|a IHa];
    simpl.
  - reflexivity.
  - discriminate.
  - intros [c [E _]]. discriminate.
  - intros [c [E _]]. discriminate.
  - intros [w1 [w2 [E [Ha Hb]]]]. symmetry in E.
    apply app_eq_nil in E as [-> ->]. now rewrite IHa, IHb.
  - intros [Ha|Hb]; [rewrite IHa | rewrite IHb]; auto using orb_true_r.
  - intros [ws [E [Hmn [_ Hall]]]].
    destruct mn as [|mn]; [reflexivity|].
    destruct ws as [|w ws]; [simpl in Hmn; lia|].
    simpl in E. symmetry in E. apply app_eq_nil in E as [-> _].
    apply Forall_inv in Hall. rewrite (IHa Hall). apply orb_true_r.
  - exact IHa.
Qed.

(** A sound match of a pattern that cannot match the empty string has a
    span that satisfies the invariant. *)
Lemma sound_match_span_ok (r : regex) (s : wstring) (m : wsmatch)
    (kind : TextKind) :
  nullable r = false -> match_sound isctype r s m ->
  span_ok s (Span (m_position m) (m_position m + m_length m) kind).
Proof.
  intros Hn [Hp [Hl [Hb Hm]]]. unfold span_ok. simpl.
  assert (m_length m <> 0); [|lia].
  intros E. rewrite E in Hm. unfold substr in Hm. simpl in Hm.
  apply matches_nil_nullable in Hm. congruence.
Qed.

End LanguageFacts.

(** Every pattern of the library compiles, and none can match the empty
    string. *)
Lemma library_not_nullable (re : wregex) :
  In re pattern_library ->
  exists r, Parser.compile (re_pattern re) = Some r /\ nullable r = false.
Proof.
  unfold pattern_library. simpl.
  intros [<-|[<-|[<-|[<-|[<-|[<-|[]]]]]]];
    (eexists; split; [vm_compute; reflexivity | vm_compute; reflexivity]).
Qed.

(** *** The reference engine is sound *)

Section ReferenceFacts.

Import Reference.

Lemma firstn_plus (A : Type) (l : list A) (n1 n2 : nat) :
  firstn (n1 + n2) l = firstn n1 l ++ firstn n2 (skipn n1 l).
Proof.
  revert l. induction n1 as [|n1 IH]; intros [|x l]; simpl;
    rewrite ?firstn_nil; try reflexivity.
  now rewrite IH.
Qed.

Lemma sound_one (p : wchar_t -> bool) :
  sound_ends (one p) (fun w => exists c, w = [c] /\ p c = true).
Proof.
  intros [|c s] n; simpl; [contradiction|].
  destruct (p c) eqn:E; [|contradiction].
  intros [<-|[]]. split; [lia|]. exists c. now split.
Qed.

Lemma sound_then f g (Lf Lg : wstring -> Prop) :
  sound_ends f Lf -> sound_ends g Lg ->
  sound_ends (then_ends f g)
    (fun w => exists w1 w2, w = w1 ++ w2 /\ Lf w1 /\ Lg w2).
Proof.
  intros Hf Hg s n Hin. unfold then_ends in Hin.
  apply in_flat_map in Hin as [n1 [H1 H2]].
  apply in_map_iff in H2 as [n2 [<- H2]].
  apply Hf in H1 as [Hle1 HL1]. apply Hg in H2 as [Hle2 HL2].
  rewrite length_skipn in Hle2. split; [lia|].
  exists (firstn n1 s), (firstn n2 (skipn n1 s)).
  split; [apply firstn_plus | now split].
Qed.

Lemma sound_impl f (L1 L2 : wstring -> Prop) :
  (forall w, L1 w -> L2 w) -> sound_ends f L1 -> sound_ends f L2.
Proof.
  intros HL Hf s n Hin. apply Hf in Hin as [H1 H2]. split; auto.
Qed.

Lemma sound_power f (Lf : wstring -> Prop) (k : nat) :
  sound_ends f Lf ->
  sound_ends (power f k)
    (fun w => exists ws, w = concat ws /\ length ws = k /\ Forall Lf ws).
Proof.
  intros Hf. induction k as [|k IH]; simpl.
  - intros s n [<-|[]]. split; [lia|]. exists []. repeat split. constructor.
  - eapply sound_impl; [|apply (sound_then _ _ _ _ Hf IH)].
    intros w [w1 [w2 [-> [H1 [ws [-> [Hlen Hall]]]]]]].
    exists (w1 :: ws). simpl. repeat split; [lia | now constructor].
Qed.

Lemma sound_upto f (Lf : wstring -> Prop) :
  sound_ends f Lf ->
  forall fuel max,
    sound_ends (upto f fuel max)
      (fun w => exists ws, w = concat ws /\ within_max max (length ws)
                           /\ Forall Lf ws).
Proof.
  intros Hf.
  assert (Hzero : forall max (s : wstring),
             (0 <= length s)%nat
             /\ exists ws : list wstring,
                 firstn 0 s = concat ws /\ within_max max (length ws)
                 /\ Forall Lf ws).
  { intros max s. split; [lia|]. exists []. repeat split; [|constructor].
    destruct max; simpl; [lia | exact I]. }
  induction fuel as [|fuel IH]; intros max s n; simpl.
  - intros [<-|[]]. apply Hzero.
  - assert (Hstep :
      In n (flat_map
              (fun n0 => if (n0 =? 0)%nat then []
                         else map (Nat.add n0)
                                (upto f fuel (option_map Nat.pred max)
                                   (skipn n0 s))) (f s) ++ [0%nat]) ->
      max <> Some 0%nat ->
      (n <= length s)%nat
      /\ exists ws, firstn n s = concat ws /\ within_max max (length ws)
                    /\ Forall Lf ws).
    { intros Hin Hmax. apply in_app_or in Hin as [Hin|[<-|[]]];
        [|apply Hzero].
      apply in_flat_map in Hin as [n1 [H1 H2]].
      destruct (n1 =? 0)%nat; [contradiction|].
      apply in_map_iff in H2 as [n2 [<- H2]].
      apply Hf in H1 as [Hle1 HL1].
      apply IH in H2 as [Hle2 [ws [E [Hmx Hall]]]].
      rewrite length_skipn in Hle2. split; [lia|].
      exists (firstn n1 s :: ws). simpl. rewrite firstn_plus, E.
      repeat split; [|now constructor].
      destruct max as [[|k]|]; simpl in *; [congruence | lia | exact I]. }
    destruct max as [[|k]|].
    + intros [<-|[]]. apply Hzero.
    + intros Hin. apply Hstep; [exact Hin | discriminate].
    + intros Hin. apply Hstep; [exact Hin | discriminate].
Qed.

Lemma ends_of_sound (r : regex) :
  sound_ends (ends_of r) (matches isctype r).
Proof.
  induction r as [|c| |neg atoms|a IHa b IHb|a IHa b IHb|mn mx a IHa|a IHa].
  - intros s n [<-|[]]. split; [lia | reflexivity].
  - eapply sound_impl; [|apply sound_one].
    intros w [c' [-> E]]. apply Z.eqb_eq in E. now subst.
  - eapply sound_impl; [|apply sound_one].
    intros w [c [-> E]]. exists c. split; [reflexivity|].
    now apply negb_true_iff in E.
  - apply sound_one.
  - exact (sound_then _ _ _ _ IHa IHb).
  - intros s n Hin. simpl in Hin. apply in_app_or in Hin as [Hin|Hin].
    + apply IHa in Hin as [H1 H2]. split; [exact H1 | now left].
    + apply IHb in Hin as [H1 H2]. split; [exact H1 | now right].
  - intros s n Hin. cbn [ends_of] in Hin.
    assert (Hgen : forall bound,
               In n (then_ends (power (ends_of a) mn)
                       (upto (ends_of a) (length s) bound) s) ->
               (n <= length s)%nat
               /\ exists ws, firstn n s = concat ws
                             /\ (mn <= length ws)%nat
                             /\ within_max bound (length ws - mn)
                             /\ Forall (matches isctype a) ws).
    { intros bound H.
      apply (sound_then _ _ _ _ (sound_power _ _ mn IHa)
               (sound_upto _ _ IHa (length s) bound)) in H
        as [Hle [w1 [w2 [E [[ws1 [-> [Hl1 Ha1]]] [ws2 [-> [Hb Ha2]]]]]]]].
      split; [exact Hle|]. exists (ws1 ++ ws2).
      rewrite concat_app, length_app. repeat split; try assumption.
      - lia.
      - replace (length ws1 + length ws2 - mn)%nat with (length ws2) by lia.
        exact Hb.
      - apply Forall_app. now split. }
    destruct mx as [k|].
    + destruct (Nat.ltb_spec k mn); [contradiction|].
      apply Hgen in Hin as [Hle [ws [E [Hmn [Hb Hall]]]]].
      split; [exact Hle|]. exists ws. simpl in Hb.
      repeat split; try assumption. lia.
    + apply Hgen in Hin as [Hle [ws [E [Hmn [Hb Hall]]]]].
      split; [exact Hle|]. exists ws. repeat split; assumption.
  - exact IHa.
Qed.

Lemma matches_from_sound (r : regex) (whole : wstring) (fuel : nat) :
  forall s pos m,
    s = skipn pos whole -> (pos <= length whole)%nat ->
    In m (matches_from fuel r s pos) ->
    match_sound isctype r whole m.
Proof.
  induction fuel as [|fuel IH]; intros s pos m Hs Hpos; simpl;
    [contradiction|].
  assert (Hstep : In m match s with
                       | [] => []
                       | _ :: s' => matches_from fuel r s' (S pos)
                       end -> match_sound isctype r whole m).
  { destruct s as [|c s'] eqn:Es; [contradiction|].
    assert (Hlen : length (skipn pos whole) = S (length s'))
      by (now rewrite <- Hs).
    rewrite length_skipn in Hlen.
    apply IH; [|lia].
    change (S pos) with (1 + pos)%nat. rewrite <- skipn_skipn, <- Hs.
    reflexivity. }
  destruct (ends_of r s) as [|n l] eqn:En; [exact Hstep|].
  intros [<-|Hin].
  - assert (Hn : In n (ends_of r s)) by (rewrite En; now left).
    apply ends_of_sound in Hn as [Hle Hm].
    assert (Hlen : length s = (length whole - pos)%nat)
      by (rewrite Hs; apply length_skipn).
    unfold match_sound, substr, wlength. simpl.
    rewrite !Nat2Z.id, <- Hs. repeat split; try lia. exact Hm.
  - destruct (n =? 0)%nat; [exact (Hstep Hin)|].
    assert (Hn : In n (ends_of r s)) by (rewrite En; now left).
    apply ends_of_sound in Hn as [Hle _].
    assert (Hlen : length s = (length whole - pos)%nat)
      by (rewrite Hs; apply length_skipn).
    apply (IH (skipn n s) (pos + n)%nat); [|lia|exact Hin].
    rewrite Hs, skipn_skipn. f_equal. lia.
Qed.

Lemma all_matches_sound (re : wregex) (r : regex) (s : wstring) (m : wsmatch) :
  Parser.compile (re_pattern re) = Some r ->
  In m (all_matches re s) -> match_sound isctype r s m.
Proof.
  intros Hc. unfold all_matches. rewrite Hc.
  apply matches_from_sound; [reflexivity | lia].
Qed.

Lemma reference_engine_sound : engine_sound isctype engine.
Proof.
  intros re r s m Hc Hin _. exact (all_matches_sound re r s m Hc Hin).
Qed.

Lemma limited_engine_sound (budget : nat) :
  engine_sound isctype (limited budget).
Proof.
  intros re r s m Hc Hin _. simpl in Hin.
  apply (all_matches_sound re r s m Hc).
  rewrite <- (firstn_skipn budget (all_matches re s)).
  apply in_or_app. now left.
Qed.

End ReferenceFacts.

(** ** Every matcher of the program *)

Lemma from_library_composite (m_sub : list SyntaxHighlighter) :
  from_library (CompositeSyntaxHighlighter m_sub)
  <-> Forall from_library m_sub.
Proof.
  induction m_sub as [|h rest IH]; simpl.
  - split; constructor.
  - split.
    + intros [H1 H2]. constructor; [exact H1 | now apply IH].
    + intros H. inversion H; subst. split; [assumption | now apply IH].
Qed.

(** C9, as amended.  Whatever the matcher (the structural one, a pattern
    matcher over a pattern of the library, or a composite of such), on every
    string of at most [INT_MAX] code units every span delivered satisfies
    [0 <= start < end <= length]; the engine is taken to report sound
    matches.  For a pattern matcher the span is not empty because no pattern
    of the library can match the empty string: the test on [match.empty()]
    only discards an object that holds no match. *)
Theorem C9_spans_ok (isctype : char_class -> wchar_t -> bool)
    (u_isblank : wchar_t -> bool)
    (engine : wregex -> wstring -> Regex.regex_run)
    (h : SyntaxHighlighter) (s : wstring) :
  engine_sound isctype engine ->
  from_library h ->
  wlength s <= INT_MAX ->
  Forall (span_ok s) (fst (Highlight u_isblank engine h s)).
Proof.
  intros Hsound Hlib Hlen. revert Hlib. induction h as [|m_sub IH|m_re m_kind]
    using SyntaxHighlighter_induction; intros Hlib.
  - now apply Basic_Highlight_ok.
  - rewrite Highlight_composite. apply for_each_sub_Forall.
    apply from_library_composite in Hlib.
    rewrite Forall_forall in *. intros h Hin. apply IH; auto.
  - simpl in Hlib. apply library_not_nullable in Hlib as [r [Hc Hn]].
    apply Forall_forall. intros sp Hin. cbn [Highlight] in Hin.
    apply Highlight_delivers_found in Hin as [m [Hm [He ->]]].
    eapply sound_match_span_ok; [exact Hn|].
    exact (Hsound m_re r s m Hc Hm He).
Qed.

(** ** The selector *)

Section SelectorFacts.

Variable engine : wregex -> wstring -> Regex.regex_run.
Variable value : TextKind -> Z.

Local Abbreviation ForItem := (ForItem engine value).
Local Abbreviation sniff := (sniff engine).
Local Abbreviation regex_search := (regex_search engine).
Local Abbreviation includes := (includes value).
Local Abbreviation no_match := (no_match engine).
Local Abbreviation matched := (matched engine).
Local Abbreviation needs := (needs engine value).
Local Abbreviation in_priority_order := (in_priority_order engine value).

Lemma nonzero_land_lor (m a b : Z) :
  nonzero (Z.land m (Z.lor a b))
  = nonzero (Z.land m a) || nonzero (Z.land m b).
Proof.
  rewrite Z.land_lor_distr_r. unfold nonzero.
  pose proof (Z.lor_eq_0_iff (Z.land m a) (Z.land m b)) as H.
  destruct (Z.eqb_spec (Z.lor (Z.land m a) (Z.land m b)) 0) as [E|E],
           (Z.eqb_spec (Z.land m a) 0), (Z.eqb_spec (Z.land m b) 0);
    simpl; try reflexivity; try (apply H in E; lia).
  exfalso. apply E, H. now split.
Qed.

Lemma sniff_no_match (re : wregex) (item : CatalogItem) :
  no_match re item -> sniff item re = Ok false.
Proof.
  intros [H1 H2]. unfold sniff, bind. rewrite H1.
  destruct (HasPlural item); [now apply H2 | reflexivity].
Qed.

Lemma sniff_Ok (re : wregex) (item : CatalogItem) (b : bool) :
  sniff item re = Ok b ->
  b = matched re (GetString item)
      || (HasPlural item && matched re (GetPluralString item)).
Proof.
  unfold sniff, bind, matched.
  destruct (regex_search (GetString item) re) as [[|]|code];
    try discriminate.
  - now intros [= <-].
  - destruct (HasPlural item); simpl.
    + intros ->. now destruct b.
    + now intros [= <-].
Qed.

Lemma sniff_if_Ok (item : CatalogItem) (kindsMask : Z) (k : TextKind)
    (re : wregex) (b : bool) :
  (if includes kindsMask k then sniff item re else Ok false) = Ok b ->
  b = needs item kindsMask k re.
Proof.
  unfold needs. destruct (includes kindsMask k); simpl.
  - apply sniff_Ok.
  - now intros [= <-].
Qed.

(** C6.  For an item with an empty format flag whose strings match neither
    the markup pattern nor the generic placeholder pattern (as far as the
    mask has them searched), [ForItem] returns [basic] if the mask includes
    LeadingWhitespace or Escape and no matcher otherwise; the latter in
    particular for the mask that is Placeholder alone, its bit being none of
    the other kinds' bits. *)
Theorem C6_plain_item (item : CatalogItem) (kindsMask : Z) :
  GetFormatFlag item = ""%string ->
  (includes kindsMask Markup = true -> no_match RE_HTML_MARKUP item) ->
  (includes kindsMask Placeholder = true ->
   no_match RE_COMMON_PLACEHOLDERS item) ->
  ForItem item kindsMask
  = Ok (if includes kindsMask LeadingWhitespace || includes kindsMask Escape
        then Some basic else None)
  /\ (Z.land (value Placeholder) (value LeadingWhitespace) = 0 ->
      Z.land (value Placeholder) (value Escape) = 0 ->
      kindsMask = value Placeholder ->
      ForItem item kindsMask = Ok None).
Proof.
  intros Hflag Hm Hp.
  assert (E : ForItem item kindsMask
              = Ok (if includes kindsMask LeadingWhitespace
                       || includes kindsMask Escape
                    then Some basic else None)).
  { unfold ForItem. rewrite Hflag, nonzero_land_lor.
    fold (includes kindsMask Markup) (includes kindsMask Placeholder)
         (includes kindsMask LeadingWhitespace) (includes kindsMask Escape).
    destruct (includes kindsMask Markup);
      [rewrite (sniff_no_match _ _ (Hm eq_refl))|];
      (destruct (includes kindsMask Placeholder);
       [rewrite (sniff_no_match _ _ (Hp eq_refl))|]);
      destruct (includes kindsMask LeadingWhitespace
                || includes kindsMask Escape); reflexivity. }
  split; [exact E|].
  intros H1 H2 ->. rewrite E. unfold includes, nonzero.
  now rewrite H1, H2.
Qed.

(** What [ForItem] returns, when it returns a matcher. *)
Lemma ForItem_Some (item : CatalogItem) (kindsMask : Z)
    (h : SyntaxHighlighter) :
  ForItem item kindsMask = Ok (Some h) ->
  h = basic
  \/ h = CompositeSyntaxHighlighter (in_priority_order item kindsMask).
Proof.
  intros E. unfold ForItem in E. rewrite nonzero_land_lor in E.
  fold (includes kindsMask Markup) (includes kindsMask Placeholder)
       (includes kindsMask LeadingWhitespace) (includes kindsMask Escape)
    in E.
  unfold bind in E.
  destruct (if includes kindsMask Markup then sniff item RE_HTML_MARKUP
            else Ok false) as [nh|] eqn:Enh; [|discriminate].
  destruct (if includes kindsMask Placeholder
            then sniff item RE_COMMON_PLACEHOLDERS
            else Ok false) as [ng|] eqn:Eng; [|discriminate].
  apply sniff_if_Ok in Enh, Eng.
  unfold in_priority_order, language_matcher. rewrite <- Enh, <- Eng.
  clear Enh Eng. unfold Add in E.
  destruct nh, ng, (String.eqb (GetFormatFlag item) "");
    cbn [negb andb] in E;
    destruct (includes kindsMask LeadingWhitespace || includes kindsMask Escape);
    try discriminate;
    try (injection E as <-; left; reflexivity);
    destruct (includes kindsMask Placeholder);
    destruct (String.eqb (GetFormatFlag item) "php");
    destruct (String.eqb (GetFormatFlag item) "c");
    destruct (String.eqb (GetFormatFlag item) "python");
    destruct (String.eqb (GetFormatFlag item) "ruby");
    injection E as <-; right; reflexivity.
Qed.

(** Every matcher [ForItem] returns is built over the library. *)
Lemma ForItem_from_library (item : CatalogItem) (kindsMask : Z)
    (h : SyntaxHighlighter) :
  ForItem item kindsMask = Ok (Some h) -> from_library h.
Proof.
  intros E. apply ForItem_Some in E as [->| ->]; [exact I|].
  apply from_library_composite.
  unfold in_priority_order, language_matcher.
  repeat (apply Forall_app; split);
    repeat match goal with
           | |- Forall _ (if ?b then _ else _) => destruct b
           end;
    repeat constructor; simpl; tauto.
Qed.

(** C7.  When [ForItem] returns a composite matcher, its sub-matchers are,
    in this order: the markup matcher if needed, the generic placeholder
    matcher if needed, the matcher of the declared format (php, c, python or
    ruby; none for another flag) if the mask includes Placeholder, and
    [basic] last if the mask includes LeadingWhitespace or Escape.  Its
    [Highlight] runs them in that order on the same string, and if none of
    them throws, the callbacks are the sub-matchers' callbacks, one block
    after the other. *)
Theorem C7_composite_order (u_isblank : wchar_t -> bool)
    (item : CatalogItem) (kindsMask : Z) (m_sub : list SyntaxHighlighter) :
  ForItem item kindsMask = Ok (Some (CompositeSyntaxHighlighter m_sub)) ->
  m_sub = in_priority_order item kindsMask
  /\ forall s,
      Highlight u_isblank engine (CompositeSyntaxHighlighter m_sub) s
      = for_each_sub (fun h => Highlight u_isblank engine h s) m_sub
      /\ (Forall (fun h => snd (Highlight u_isblank engine h s) = Returned)
            m_sub ->
          Highlight u_isblank engine (CompositeSyntaxHighlighter m_sub) s
          = (concat (map (fun h => fst (Highlight u_isblank engine h s))
                       m_sub),
             Returned)).
Proof.
  intros E. split.
  - apply ForItem_Some in E as [E|E]; [discriminate | now injection E].
  - intros s. split; [apply Highlight_composite|].
    intros Hall. rewrite Highlight_composite.
    now apply for_each_sub_returned.
Qed.

(** C10.  For an item whose format flag is not empty and is none of c, php,
    python and ruby, whose strings match neither sniffed pattern, and a mask
    without LeadingWhitespace and Escape, [ForItem] returns a composite
    matcher, not a null pointer, and the composite has no sub-matcher: its
    [Highlight] delivers nothing on any string. *)
Theorem C10_inert_composite (item : CatalogItem) (kindsMask : Z) :
  ~ In (GetFormatFlag item) [""; "c"; "php"; "python"; "ruby"]%string ->
  (includes kindsMask Markup = true -> no_match RE_HTML_MARKUP item) ->
  (includes kindsMask Placeholder = true ->
   no_match RE_COMMON_PLACEHOLDERS item) ->
  includes kindsMask LeadingWhitespace = false ->
  includes kindsMask Escape = false ->
  ForItem item kindsMask = Ok (Some (CompositeSyntaxHighlighter []))
  /\ forall u_isblank s,
      Highlight u_isblank engine (CompositeSyntaxHighlighter []) s
      = ([], Returned).
Proof.
  intros Hflag Hm Hp Hlw Hesc. split; [|reflexivity].
  assert (Hne : forall f, In f [""; "c"; "php"; "python"; "ruby"]%string ->
                          String.eqb (GetFormatFlag item) f = false).
  { intros f Hin. apply String.eqb_neq. intros E. apply Hflag.
    now rewrite E. }
  unfold ForItem. rewrite nonzero_land_lor.
  fold (includes kindsMask Markup) (includes kindsMask Placeholder)
       (includes kindsMask LeadingWhitespace) (includes kindsMask Escape).
  rewrite Hlw, Hesc, !Hne by (simpl; tauto).
  destruct (includes kindsMask Markup);
    [rewrite (sniff_no_match _ _ (Hm eq_refl))|];
    (destruct (includes kindsMask Placeholder);
     [rewrite (sniff_no_match _ _ (Hp eq_refl))|]); reflexivity.
Qed.

End SelectorFacts.

(** ** Instances *)

(** The structural matcher with ICU's predicate. *)

Lemma C1_hello_witness :
  icu_isblank 32 = true
  /\ (forall c, In c (L "hello") -> icu_isblank c = false)
  /\ Basic.Highlight icu_isblank (L "  hello  ")
     = [Span 0 2 LeadingWhitespace; Span 7 9 LeadingWhitespace;
        Span 0 2 LeadingWhitespace].
Proof.
  assert (H : forall c, In c (L "hello") -> icu_isblank c = false).
  { intros c Hc. simpl in Hc.
    destruct Hc as [<-|[<-|[<-|[<-|[<-|[]]]]]]; reflexivity. }
  split; [reflexivity | split; [exact H|]].
  exact (C1_hello icu_isblank eq_refl H).
Defined.

(** C1 as stated fails: the callbacks are not the two edge spans alone, for
    the forward pass adds a span of its own. *)
Lemma C1_counterexample :
  Basic.Highlight icu_isblank (L "  hello  ")
  <> [Span 0 2 LeadingWhitespace; Span 7 9 LeadingWhitespace]
  /\ Basic.scan icu_isblank (L "  hello  ") 0 (-1)
     = [Span 0 2 LeadingWhitespace].
Proof. split; [vm_compute; discriminate | reflexivity]. Qed.

Lemma C2_starts_by_pass_witness :
  icu_isblank BACKSLASH = false
  /\ ~ In NBSP (L "  one  two \n  ")
  /\ wlength (L "  one  two \n  ") <= INT_MAX
  /\ increasing_starts
       (Basic.leading icu_isblank (L "  one  two \n  ")
        ++ Basic.trailing icu_isblank (L "  one  two \n  "))
  /\ increasing_starts (Basic.scan icu_isblank (L "  one  two \n  ") 0 (-1)).
Proof.
  assert (Hn : ~ In NBSP (L "  one  two \n  ")).
  { simpl. unfold NBSP. intuition discriminate. }
  assert (Hlen : wlength (L "  one  two \n  ") <= INT_MAX) by discriminate.
  destruct (C2_starts_by_pass icu_isblank (L "  one  two \n  ") eq_refl Hlen)
    as [_ [H1 H2]].
  split; [reflexivity | split; [exact Hn | split; [exact Hlen|]]].
  split; [exact H1 | exact (H2 Hn)].
Defined.

(** C2 as stated fails: on "  hello  " the starts are 0, 7, 0.  Within the
    forward pass a non-breaking space inside an open run comes out before
    the run: on space, U+00A0, space, x the starts of the pass are 1, 0. *)
Lemma C2_counterexample :
  starts (Basic.Highlight icu_isblank (L "  hello  ")) = [0; 7; 0]
  /\ starts (Basic.scan icu_isblank [32; NBSP; 32; 120] 0 (-1)) = [1; 0]
  /\ ~ increasing_starts (Basic.Highlight icu_isblank (L "  hello  ")).
Proof.
  split; [reflexivity | split; [reflexivity|]].
  unfold increasing_starts.
  change (starts (Basic.Highlight icu_isblank (L "  hello  "))) with [0; 7; 0].
  intros H. inversion H as [|x l _ Hall]; subst.
  inversion Hall as [|y l' _ Hall']; subst.
  inversion Hall' as [|z l'' Hlt _]; subst. lia.
Qed.

Lemma C3_backslash_step_witness :
  icu_isblank BACKSLASH = false
  /\ whole_steps (L "a  ") = true
  /\ wlength (L "a  \nb") <= INT_MAX
  /\ In 110 [48; 97; 98; 102; 110; 114; 116; 118; 92]
  /\ ~ In 113 [48; 97; 98; 102; 110; 114; 116; 118; 92]
  /\ Basic.Highlight icu_isblank (L "a  \nb")
     = [Span 1 3 LeadingWhitespace; Span 3 5 Escape]
  /\ Basic.Highlight icu_isblank (L "a  \qb") = [Span 1 3 LeadingWhitespace]
  /\ Basic.Highlight icu_isblank (L "a  \") = [Span 1 3 LeadingWhitespace].
Proof.
  assert (Hlen : wlength (L "a  \nb") <= INT_MAX) by discriminate.
  assert (Hn : In 110 [48; 97; 98; 102; 110; 114; 116; 118; 92])
    by (simpl; tauto).
  assert (Hq : ~ In 113 [48; 97; 98; 102; 110; 114; 116; 118; 92])
    by (simpl; intuition discriminate).
  destruct (C3_backslash_step icu_isblank (L "a  ") eq_refl eq_refl)
    as [bbp [Hst [H [H1 [H2 H3]]]]].
  assert (E : bbp = 1).
  { specialize (H [120]). change (wlength (L "a  ")) with 3 in *.
    destruct Hst as [->|Hst]; [discriminate H|].
    assert (Hcases : bbp = 0 \/ bbp = 1 \/ bbp = 2) by lia.
    destruct Hcases as [->|[->| ->]];
      [discriminate H | reflexivity | discriminate H]. }
  subst bbp.
  split; [reflexivity | split; [reflexivity | split; [exact Hlen|]]].
  split; [exact Hn | split; [exact Hq|]].
  split; [exact (H1 110 (L "b") Hlen Hn) | split].
  - exact (H2 113 (L "b") Hlen Hq).
  - apply H3. discriminate.
Defined.

(** C3 as stated fails where it says that nothing more is emitted.  On two
    spaces and a backslash the pass has emitted nothing when it comes to the
    backslash, which is the last code point; standing on it, it emits the
    span [0,2) of the run the backslash ends.  The other span [0,2) of the
    call is that of the leading loop. *)
Lemma C3_counterexample :
  whole_steps (L "  ") = true
  /\ Basic.scan icu_isblank (L "  ") 0 (-1) = []
  /\ Basic.scan icu_isblank (L "  " ++ [BACKSLASH]) 0 (-1)
     = [Span 0 2 LeadingWhitespace]
  /\ Basic.leading icu_isblank (L "  \") = [Span 0 2 LeadingWhitespace]
  /\ Basic.trailing icu_isblank (L "  \") = []
  /\ Basic.Highlight icu_isblank (L "  \")
     = [Span 0 2 LeadingWhitespace; Span 0 2 LeadingWhitespace].
Proof. repeat split. Qed.



(** The pattern matcher over the reference engine. *)

Lemma C5_search_failure_witness :
  Regex.finish (Reference.limited 2 RE_C_FORMAT (L "%d of %5.2lf %1$s"))
  = Regex.regex_error error_complexity
  /\ Regex.Highlight (Reference.limited 2 RE_C_FORMAT (L "%d of %5.2lf %1$s"))
       Placeholder
     = (flat_map (Regex.callback Placeholder)
          (removelast
             (Regex.found
                (Reference.limited 2 RE_C_FORMAT (L "%d of %5.2lf %1$s")))),
        Returned).
Proof.
  split; [reflexivity|].
  exact (C5_search_failure
           (Reference.limited 2 RE_C_FORMAT (L "%d of %5.2lf %1$s"))
           Placeholder error_complexity eq_refl).
Defined.

(** C5 as stated fails: the engine found the match [0,2) before it gave up
    in the second search, and [Highlight] returns without having delivered
    it. *)
Lemma C5_counterexample :
  Regex.finish (Reference.limited 1 RE_C_FORMAT (L "%d of %s"))
  = Regex.regex_error error_complexity
  /\ flat_map (Regex.callback Placeholder)
       (Regex.found (Reference.limited 1 RE_C_FORMAT (L "%d of %s")))
     = [Span 0 2 Placeholder]
  /\ Regex.Highlight (Reference.limited 1 RE_C_FORMAT (L "%d of %s"))
       Placeholder
     = ([], Returned).
Proof. repeat split. Qed.

(** The selector over the reference engine, with one bit for each kind. *)

Lemma C6_plain_item_witness :
  ForItem Reference.engine bit_value plain_item 15 = Ok (Some basic)
  /\ ForItem Reference.engine bit_value plain_item 8 = Ok None.
Proof.
  split.
  - apply (C6_plain_item Reference.engine bit_value plain_item 15).
    + reflexivity.
    + intros _. split; [reflexivity | intros _; reflexivity].
    + intros _. split; [reflexivity | intros _; reflexivity].
  - apply (C6_plain_item Reference.engine bit_value plain_item 8).
    + reflexivity.
    + intros _. split; [reflexivity | intros _; reflexivity].
    + intros _. split; [reflexivity | intros _; reflexivity].
    + reflexivity.
    + reflexivity.
    + reflexivity.
Defined.

Lemma C7_composite_order_witness :
  ForItem Reference.engine bit_value c_item 15
  = Ok (Some (CompositeSyntaxHighlighter
                [html; placeholders; c_format; basic]))
  /\ [html; placeholders; c_format; basic]
     = in_priority_order Reference.engine bit_value c_item 15
  /\ fst (Highlight icu_isblank Reference.engine
            (CompositeSyntaxHighlighter [html; placeholders; c_format; basic])
            (GetString c_item))
     = [Span 0 3 Markup; Span 5 9 Markup]
       ++ [Span 3 5 Placeholder; Span 18 23 Placeholder]
       ++ [Span 3 5 Placeholder]
       ++ [].
Proof.
  assert (E : ForItem Reference.engine bit_value c_item 15
              = Ok (Some (CompositeSyntaxHighlighter
                            [html; placeholders; c_format; basic])))
    by reflexivity.
  destruct (C7_composite_order Reference.engine bit_value icu_isblank
              c_item 15 _ E) as [H1 H2].
  split; [exact E | split; [exact H1|]].
  destruct (H2 (GetString c_item)) as [_ H3].
  rewrite H3; [reflexivity|].
  repeat constructor.
Defined.

Lemma C9_spans_ok_witness :
  engine_sound Reference.isctype Reference.engine
  /\ from_library
       (CompositeSyntaxHighlighter [html; placeholders; c_format; basic])
  /\ wlength (L "  <b>%d</b>  files in {dir}\n ") <= INT_MAX
  /\ Forall (span_ok (L "  <b>%d</b>  files in {dir}\n "))
       (fst (Highlight icu_isblank Reference.engine
               (CompositeSyntaxHighlighter
                  [html; placeholders; c_format; basic])
               (L "  <b>%d</b>  files in {dir}\n "))).
Proof.
  assert (Hlib : from_library
            (CompositeSyntaxHighlighter [html; placeholders; c_format; basic])).
  { simpl. tauto. }
  assert (Hlen : wlength (L "  <b>%d</b>  files in {dir}\n ") <= INT_MAX)
    by discriminate.
  split; [exact reference_engine_sound | split; [exact Hlib|]].
  split; [exact Hlen|].
  exact (C9_spans_ok Reference.isctype icu_isblank Reference.engine _ _
           reference_engine_sound Hlib Hlen).
Defined.

(** The trailing loop on an x followed by 2^31 + 1 spaces, by the equation of
    the loop and without running it: the length 2147483650 becomes
    -2147483646 as an [int], the 2147483649 blanks walked become
    -2147483647, and their difference is 1. *)
Lemma trailing_beyond_int (n : nat) :
  Z.of_nat n = 2147483649 ->
  wlength (120 :: repeat 32 n) = 2147483650
  /\ Basic.trailing icu_isblank (120 :: repeat 32 n)
     = [Span 1 (-2147483646) LeadingWhitespace].
Proof.
  intros Hn.
  assert (Hlen : wlength (repeat 32 n) = 2147483649)
    by (unfold wlength; now rewrite repeat_length).
  split; [rewrite wlength_cons, Hlen; reflexivity|].
  change (120 :: repeat 32 n) with ([] ++ 120 :: repeat 32 n).
  rewrite trailing_exact.
  - cbn [app]. rewrite wlength_cons, Hlen. reflexivity.
  - apply Forall_forall. intros x Hx. apply repeat_spec in Hx. now subst x.
  - reflexivity.
Qed.

(** C9 as stated fails on a string longer than [INT_MAX]: on an x followed
    by 2^31 + 1 spaces, 2147483650 code units in all, the trailing loop of
    the structural matcher calls back with the span from 1 to -2147483646,
    whose end is before its start and before 0. *)
Lemma C9_counterexample :
  wlength x_and_spaces = 2147483650
  /\ In (Span 1 (-2147483646) LeadingWhitespace)
       (fst (Highlight icu_isblank Reference.engine BasicSyntaxHighlighter
               x_and_spaces))
  /\ ~ span_ok x_and_spaces (Span 1 (-2147483646) LeadingWhitespace).
Proof.
  assert (Hn : Z.of_nat (Z.to_nat 2147483649) = 2147483649)
    by (apply Z2Nat.id; discriminate).
  unfold x_and_spaces. revert Hn. generalize (Z.to_nat 2147483649).
  intros n Hn. destruct (trailing_beyond_int n Hn) as [Hlen Ht].
  split; [exact Hlen | split].
  - change (fst (Highlight icu_isblank Reference.engine BasicSyntaxHighlighter
                   (120 :: repeat 32 n)))
      with (Basic.Highlight icu_isblank (120 :: repeat 32 n)).
    rewrite Highlight_three_loops, Ht.
    apply in_or_app. left. apply in_or_app. right. now left.
  - unfold span_ok. cbn [sp_start sp_end]. lia.
Qed.

Lemma C10_inert_composite_witness :
  ~ In (GetFormatFlag java_item) [""; "c"; "php"; "python"; "ruby"]%string
  /\ ForItem Reference.engine bit_value java_item 12
     = Ok (Some (CompositeSyntaxHighlighter []))
  /\ Highlight icu_isblank Reference.engine (CompositeSyntaxHighlighter [])
       (L "Hello, world")
     = ([], Returned).
Proof.
  assert (Hflag : ~ In (GetFormatFlag java_item)
                       [""; "c"; "php"; "python"; "ruby"]%string).
  { simpl. intuition discriminate. }
  destruct (C10_inert_composite Reference.engine bit_value java_item 12)
    as [H1 H2].
  - exact Hflag.
  - intros _. split; [reflexivity | discriminate].
  - intros _. split; [reflexivity | discriminate].
  - reflexivity.
  - reflexivity.
  - split; [exact Hflag | split; [exact H1 | apply H2]].
Defined.

(** The examples the specification gives for the structural matcher, and the
    python matcher on a string with both styles of placeholder. *)

Example escape_recognised :
  Basic.Highlight icu_isblank (L "a\nb") = [Span 1 3 Escape].
Proof. reflexivity. Qed.

Example escape_unrecognised :
  Basic.Highlight icu_isblank (L "a\qb") = [].
Proof. reflexivity. Qed.

Example non_breaking_space :
  Basic.Highlight icu_isblank [97; NBSP; 98] = [Span 1 2 LeadingWhitespace].
Proof. reflexivity. Qed.

Example all_blank : Basic.Highlight icu_isblank (L "   ") = [].
Proof. reflexivity. Qed.

Example python_both_styles :
  ForItem Reference.engine bit_value
    {| GetString := L "%(name)s and {name}"; HasPlural := false;
       GetPluralString := []; GetFormatFlag := "python" |} 8
  = Ok (Some (CompositeSyntaxHighlighter [placeholders; python_format]))
  /\ Highlight icu_isblank Reference.engine python_format
       (L "%(name)s and {name}")
     = ([Span 0 8 Placeholder; Span 13 19 Placeholder], Returned).
Proof. split; reflexivity. Qed.

(** The grammar read from one alternative of the generic placeholder
    pattern. *)
Example compile_brace_placeholder :
  Parser.compile "%?\{[\w.-]+\}"
  = Some (R_seq (R_repeat 0 (Some 1%nat) (R_char 37))
            (R_seq (R_char 123)
               (R_seq (R_repeat 1 None
                         (R_set false
                            [CA_class false class_w; CA_char 46; CA_char 45]))
                  (R_seq (R_char 125) R_empty)))).
Proof. reflexivity. Qed.

(** * Further properties *)

(** ** The structural matcher: the edge loops *)

Section EdgeFacts.

Variable u_isblank : wchar_t -> bool.

Local Abbreviation leading := (Basic.leading u_isblank).
Local Abbreviation trailing := (Basic.trailing u_isblank).
Local Abbreviation blank_prefix := (Basic.blank_prefix u_isblank).


Lemma blank_prefix_split (s : wstring) :
  forall n w,
    blank_prefix s n = Some w ->
    exists bl c rest,
      s = bl ++ c :: rest
      /\ Forall (fun x => u_isblank x = true) bl
      /\ u_isblank c = false
      /\ w = n + wlength bl.
Proof.
  induction s as [|x s IH]; intros n w; simpl; [discriminate|].
  destruct (u_isblank x) eqn:Hx.
  - intros E. apply IH in E as [bl [c [rest [-> [Hbl [Hc ->]]]]]].
    exists (x :: bl), c, rest. repeat split; auto.
    rewrite wlength_cons. lia.
  - intros [= <-]. exists [], x, s. repeat split; auto.
    unfold wlength. simpl. lia.
Qed.

(** The loop cannot pass a code point that is not blank. *)
Lemma blank_prefix_before (l1 : wstring) (c : wchar_t) (l2 : wstring) :
  u_isblank c = false ->
  forall n w, blank_prefix (l1 ++ c :: l2) n = Some w -> w <= n + wlength l1.
Proof.
  intros Hc. induction l1 as [|x l1 IH]; intros n w; simpl.
  - rewrite Hc. intros [= <-]. unfold wlength. simpl. lia.
  - rewrite wlength_cons. destruct (u_isblank x).
    + intros E. apply IH in E. lia.
    + intros [= <-]. pose proof (wlength_nonneg l1). lia.
Qed.


(** X2.  When both edge loops report a span, the two spans do not touch: the
    leading span ends before the trailing span begins, with a code point
    that is not blank between them.  The string has at most [INT_MAX] code
    units. *)
Theorem X2_edges_apart (s : wstring) (a b : span) :
  wlength s <= INT_MAX ->
  In a (leading s) -> In b (trailing s) -> sp_end a < sp_start b.
Proof.
  intros Hlen.
  rewrite (leading_in_range u_isblank s Hlen),
    (trailing_in_range u_isblank s Hlen).
  destruct (blank_prefix s 0) as [w|] eqn:E; [|contradiction].
  destruct (blank_prefix (rev s) 0) as [w'|] eqn:E'; [|intros _ []].
  apply blank_prefix_split in E as [bl [c [rest [-> [Hbl [Hc ->]]]]]].
  rewrite rev_app_distr in E'. simpl in E'. rewrite <- app_assoc in E'.
  apply (blank_prefix_before _ _ _ Hc) in E'. rewrite wlength_rev in E'.
  rewrite wlength_append, wlength_cons.
  destruct (0 + wlength bl =? 0); [contradiction|].
  destruct (w' =? 0); [intros _ []|].
  intros [<-|[]] [<-|[]]. simpl. lia.
Qed.


End EdgeFacts.

(** ** The structural matcher: the forward pass *)

Section ScanFacts.

Variable u_isblank : wchar_t -> bool.

Local Abbreviation whitespace := (Basic.whitespace u_isblank).
Local Abbreviation scan := (Basic.scan u_isblank).



Lemma whitespace_kind c pos bbp h :
  In h (fst (whitespace c pos bbp)) -> sp_kind h = LeadingWhitespace.
Proof.
  unfold Basic.whitespace.
  destruct (c =? NBSP); [|destruct (u_isblank c);
                           [|destruct (negb (bbp =? -1));
                             [destruct (pos - bbp >=? 2)|]]];
    simpl; intros H; try contradiction; destruct H as [<-|[]]; reflexivity.
Qed.

Lemma nth_error_after (pre : wstring) (c : wchar_t) (rest : wstring) :
  nth_error (pre ++ c :: rest) (Z.to_nat (wlength pre)) = Some c.
Proof.
  unfold wlength. rewrite Nat2Z.id, nth_error_app2, Nat.sub_diag by lia.
  reflexivity.
Qed.

Lemma scan_kinds (suffix : wstring) :
  forall pre bbp h,
    In h (scan suffix (wlength pre) bbp) ->
    sp_kind h = LeadingWhitespace
    \/ (sp_kind h = Escape /\ on_escape (pre ++ suffix) h).
Proof.
  induction suffix as [|c rest IH1 IH2] using wstring_ind2;
    intros pre bbp h Hin; [contradiction|].
  destruct (Z.eqb_spec c BACKSLASH) as [->|Hc].
  - destruct rest as [|e rest'].
    + cbn [Basic.scan] in Hin.
      pose proof (whitespace_kind BACKSLASH (wlength pre) bbp h) as Hk.
      destruct (whitespace BACKSLASH (wlength pre) bbp) as [hl bbp'].
      simpl in Hin. left. now apply Hk.
    + rewrite scan_two_steps in Hin.
      apply in_app_or in Hin as [Hin|Hin];
        [left; eapply whitespace_kind; exact Hin|].
      apply in_app_or in Hin as [Hin|Hin].
      * right. unfold Basic.escape in Hin.
        destruct (Basic.is_escape_char e) eqn:He; [|contradiction].
        destruct Hin as [<-|[]]. split; [reflexivity|].
        unfold on_escape. cbn [sp_start sp_end].
        pose proof (wlength_nonneg pre).
        repeat split; try lia; [apply nth_error_after|].
        exists e. split; [|exact He].
        unfold wlength. rewrite Nat2Z.id.
        rewrite nth_error_app2 by lia.
        replace (S (length pre) - length pre)%nat with 1%nat by lia.
        reflexivity.
      * replace (wlength pre + 2) with (wlength (pre ++ [BACKSLASH; e])) in Hin
          by (rewrite wlength_append; unfold wlength; simpl; lia).
        apply IH2 with (e := e) (rest' := rest') in Hin; [|reflexivity].
        now rewrite <- app_assoc in Hin.
  - rewrite scan_one_step in Hin by exact Hc.
    apply in_app_or in Hin as [Hin|Hin];
      [left; eapply whitespace_kind; exact Hin|].
    replace (wlength pre + 1) with (wlength (pre ++ [c])) in Hin
      by (rewrite wlength_append; unfold wlength; simpl; lia).
    apply IH1 in Hin. now rewrite <- app_assoc in Hin.
Qed.

Lemma edge_kind (s : wstring) (h : span) :
  In h (Basic.leading u_isblank s ++ Basic.trailing u_isblank s) ->
  sp_kind h = LeadingWhitespace.
Proof.
  unfold Basic.leading, Basic.trailing. intros Hin.
  apply in_app_or in Hin as [Hin|Hin];
    [destruct (Basic.blank_prefix u_isblank s 0) as [w|]
    |destruct (Basic.blank_prefix u_isblank (rev s) 0) as [w|]];
    try contradiction; cbv zeta in Hin; destruct (int w =? 0);
    try contradiction; destruct Hin as [<-|[]]; reflexivity.
Qed.

(** The kinds of the structural matcher. *)
Lemma Basic_Highlight_kinds (s : wstring) (h : span) :
  In h (Basic.Highlight u_isblank s) ->
  sp_kind h = LeadingWhitespace \/ (sp_kind h = Escape /\ on_escape s h).
Proof.
  unfold Basic.Highlight. destruct s as [|c s]; [contradiction|].
  rewrite app_assoc. intros Hin. apply in_app_or in Hin as [Hin|Hin].
  - left. eapply edge_kind. exact Hin.
  - exact (scan_kinds (c :: s) [] (-1) h Hin).
Qed.




Lemma scan_single_blanks (s : wstring) :
  ~ In NBSP s -> ~ In BACKSLASH s -> single_blanks u_isblank s = true ->
  forall pos bbp,
    bbp = -1
    \/ (bbp = pos - 1 /\ forall c, hd_error s = Some c -> u_isblank c = false) ->
    scan s pos bbp = [].
Proof.
  induction s as [|c s IH]; intros Hn Hb Hs pos bbp Hst; [reflexivity|].
  assert (Hc : c <> NBSP) by (intros ->; apply Hn; now left).
  assert (Hc' : c <> BACKSLASH) by (intros ->; apply Hb; now left).
  cbn [single_blanks] in Hs. apply andb_true_iff in Hs as [Hcs Hs].
  rewrite scan_one_step by exact Hc'.
  assert (Hn' : ~ In NBSP s) by (intros H; apply Hn; now right).
  assert (Hb' : ~ In BACKSLASH s) by (intros H; apply Hb; now right).
  destruct (u_isblank c) eqn:Eb.
  - rewrite (whitespace_blank u_isblank c pos bbp Hc Eb). cbn [fst snd app].
    destruct Hst as [->|[_ H]]; [|now rewrite (H c eq_refl) in Eb].
    apply IH; auto. right. split; [simpl; lia|].
    intros b Hhd. destruct s as [|b' s']; [discriminate|].
    injection Hhd as ->. simpl in Hcs.
    now apply negb_true_iff in Hcs.
  - rewrite (whitespace_other u_isblank c pos bbp Hc Eb). cbn [fst snd].
    replace (close_run pos bbp) with (@nil span).
    + apply IH; auto.
    + unfold close_run. destruct Hst as [->|[-> _]]; [reflexivity|].
      destruct (Z.eqb_spec (pos - 1) (-1)); [reflexivity|].
      replace (pos - (pos - 1)) with 1 by lia. reflexivity.
Qed.

(** X7.  Ordinary text is left alone: a string that neither begins nor ends
    with a blank, in which no two blanks are next to each other, and which
    holds no U+00A0 and no backslash, is given no span.  A single blank
    between two words is not reported. *)
Theorem X7_ordinary_text (s : wstring) :
  ~ In NBSP s -> ~ In BACKSLASH s ->
  single_blanks u_isblank s = true ->
  (forall c, hd_error s = Some c -> u_isblank c = false) ->
  (forall c, hd_error (rev s) = Some c -> u_isblank c = false) ->
  Basic.Highlight u_isblank s = [].
Proof.
  intros Hn Hb Hs Hfirst Hlast. unfold Basic.Highlight.
  destruct s as [|c s]; [reflexivity|].
  rewrite (scan_single_blanks (c :: s) Hn Hb Hs 0 (-1) (or_introl eq_refl)).
  unfold Basic.leading, Basic.trailing.
  cbn [Basic.blank_prefix]. rewrite (Hfirst c eq_refl). cbn [Z.eqb].
  destruct (rev (c :: s)) as [|d r] eqn:Er; [reflexivity|].
  cbn [Basic.blank_prefix]. now rewrite (Hlast d eq_refl).
Qed.



Lemma whitespace_short c pos bbp :
  (length (fst (whitespace c pos bbp)) <= 1)%nat.
Proof.
  unfold Basic.whitespace.
  destruct (c =? NBSP); [|destruct (u_isblank c);
                           [|destruct (negb (bbp =? -1));
                             [destruct (pos - bbp >=? 2)|]]];
    simpl; lia.
Qed.


Lemma escape_short pos e : (length (Basic.escape pos e) <= 1)%nat.
Proof.
  unfold Basic.escape. destruct (Basic.is_escape_char e); simpl; lia.
Qed.





Lemma scan_count (s : wstring) :
  forall pos bbp, (length (scan s pos bbp) <= length s)%nat.
Proof.
  induction s as [|c rest IH1 IH2] using wstring_ind2; intros pos bbp;
    [simpl; lia|].
  destruct (Z.eqb_spec c BACKSLASH) as [->|Hc].
  - destruct rest as [|e rest'].
    + cbn [Basic.scan]. pose proof (whitespace_short BACKSLASH pos bbp).
      destruct (whitespace BACKSLASH pos bbp). simpl in *. lia.
    + rewrite scan_two_steps, !length_app.
      pose proof (whitespace_short BACKSLASH pos bbp).
      pose proof (escape_short pos e).
      pose proof (IH2 e rest' eq_refl (pos + 2)
                    (snd (whitespace BACKSLASH pos bbp))).
      simpl. lia.
  - rewrite scan_one_step, length_app by exact Hc.
    pose proof (whitespace_short c pos bbp).
    pose proof (IH1 (pos + 1) (snd (whitespace c pos bbp))).
    simpl. lia.
Qed.

(** X9.  One call of the structural matcher makes at most two callbacks more
    than the string has code points: one for each edge and at most one for
    each code point in the forward pass. *)
Theorem X9_callback_count (s : wstring) :
  (length (Basic.Highlight u_isblank s) <= length s + 2)%nat.
Proof.
  unfold Basic.Highlight. destruct s as [|c s]; [simpl; lia|].
  rewrite !length_app. pose proof (scan_count (c :: s) 0 (-1)).
  assert (length (Basic.leading u_isblank (c :: s)) <= 1)%nat.
  { unfold Basic.leading.
    destruct (Basic.blank_prefix u_isblank (c :: s) 0) as [w|];
      [cbv zeta; destruct (int w =? 0)|]; simpl; lia. }
  assert (length (Basic.trailing u_isblank (c :: s)) <= 1)%nat.
  { unfold Basic.trailing.
    destruct (Basic.blank_prefix u_isblank (rev (c :: s)) 0) as [w|];
      [cbv zeta; destruct (int w =? 0)|]; simpl; lia. }
  lia.
Qed.

Local Abbreviation blank_between := (blank_between u_isblank).
Local Abbreviation open_run_blank := (open_run_blank u_isblank).

Lemma blankish_nbsp : blankish u_isblank NBSP = true.
Proof. unfold blankish. rewrite Z.eqb_refl. apply orb_true_r. Qed.

Lemma blank_between_app (pre suffix : wstring) (lo hi : Z) :
  0 <= lo -> hi <= wlength pre ->
  blank_between pre lo hi -> blank_between (pre ++ suffix) lo hi.
Proof.
  intros Hlo Hhi H i Hi. destruct (H i Hi) as [c [E Hc]]. exists c.
  split; [|exact Hc]. rewrite nth_error_app1; [exact E|].
  unfold wlength in Hhi. lia.
Qed.

Lemma blank_between_snoc (pre : wstring) (c : wchar_t) (lo : Z) :
  0 <= lo ->
  blankish u_isblank c = true ->
  blank_between pre lo (wlength pre) ->
  blank_between (pre ++ [c]) lo (wlength pre + 1).
Proof.
  intros Hlo Hc H i Hi. destruct (Z.eq_dec i (wlength pre)) as [->|Hne].
  - exists c. split; [apply nth_error_after | exact Hc].
  - apply (blank_between_app pre [c] lo (wlength pre) Hlo ltac:(lia) H i).
    lia.
Qed.

Lemma blank_between_part (p q r : wstring) :
  Forall (fun x => u_isblank x = true) q ->
  blank_between (p ++ q ++ r) (wlength p) (wlength p + wlength q).
Proof.
  intros Hq i Hi. unfold wlength in *.
  rewrite nth_error_app2 by lia. rewrite nth_error_app1 by lia.
  destruct (nth_error q (Z.to_nat i - length p)) as [c|] eqn:E.
  - exists c. split; [reflexivity|]. apply nth_error_In in E.
    rewrite Forall_forall in Hq. unfold blankish. now rewrite (Hq c E).
  - apply nth_error_None in E. lia.
Qed.

Lemma scan_whitespace_blank (suffix : wstring) :
  u_isblank BACKSLASH = false ->
  forall pre bbp h,
    open_run_blank pre bbp ->
    In h (scan suffix (wlength pre) bbp) ->
    sp_kind h = LeadingWhitespace ->
    blank_between (pre ++ suffix) (sp_start h) (sp_end h).
Proof.
  intros Hbs.
  induction suffix as [|c rest IH1 IH2] using wstring_ind2;
    intros pre bbp h Hst Hin Hk; [contradiction|].
  pose proof (wlength_nonneg pre) as Hpre.
  (* what the chain reports at [c], and the state it leaves *)
  assert (Hw : (forall h', In h' (fst (whitespace c (wlength pre) bbp)) ->
                           blank_between (pre ++ c :: rest)
                             (sp_start h') (sp_end h'))
               /\ (c <> BACKSLASH ->
                   open_run_blank (pre ++ [c])
                     (snd (whitespace c (wlength pre) bbp)))
               /\ (c = BACKSLASH ->
                   snd (whitespace c (wlength pre) bbp) = -1)).
  { unfold Basic.whitespace. destruct (Z.eqb_spec c NBSP) as [->|Hn].
    - cbn [fst snd]. split; [|split].
      + intros h' [<-|[]]. cbn [sp_start sp_end]. intros i Hi.
        replace i with (wlength pre) by lia.
        exists NBSP. split; [apply nth_error_after | apply blankish_nbsp].
      + intros _. destruct Hst as [->|[Hb Hbl]]; [now left | right].
        rewrite wlength_append. change (wlength [NBSP]) with 1.
        split; [lia|].
        apply blank_between_snoc; [lia | apply blankish_nbsp | exact Hbl].
      + discriminate.
    - destruct (u_isblank c) eqn:Eb; cbn [fst snd].
      + split; [intros h' [] | split; [|intros ->; congruence]].
        intros _. right. rewrite wlength_append. change (wlength [c]) with 1.
        assert (Hc : blankish u_isblank c = true)
          by (unfold blankish; now rewrite Eb).
        destruct Hst as [->|[Hb Hbl]].
        * rewrite Z.eqb_refl. split; [lia|]. intros i Hi.
          replace i with (wlength pre) by lia.
          exists c. split; [apply nth_error_after | exact Hc].
        * destruct (Z.eqb_spec bbp (-1)); [lia|].
          split; [lia|]. apply blank_between_snoc; [lia | exact Hc | exact Hbl].
      + destruct (Z.eqb_spec bbp (-1)) as [->|Hne]; cbn [negb fst snd].
        * split; [intros h' [] | split; [now left | reflexivity]].
        * split; [|split; [now left | reflexivity]].
          destruct Hst as [->|[Hb Hbl]]; [contradiction|].
          destruct (wlength pre - bbp >=? 2); intros h' Hh; [|contradiction].
          destruct Hh as [<-|[]]. cbn [sp_start sp_end].
          apply blank_between_app; try lia. exact Hbl. }
  destruct Hw as [Hhl [Hnext Hback]].
  destruct (Z.eqb_spec c BACKSLASH) as [->|Hc].
  - destruct rest as [|e rest'].
    + cbn [Basic.scan] in Hin.
      destruct (whitespace BACKSLASH (wlength pre) bbp) as [hl bbp'].
      simpl in *. now apply Hhl.
    + rewrite scan_two_steps in Hin.
      apply in_app_or in Hin as [Hin|Hin]; [now apply Hhl|].
      apply in_app_or in Hin as [Hin|Hin].
      * unfold Basic.escape in Hin. destruct (Basic.is_escape_char e);
          [|contradiction]. destruct Hin as [<-|[]]. discriminate.
      * rewrite (Hback eq_refl) in Hin.
        replace (wlength pre + 2) with (wlength (pre ++ [BACKSLASH; e])) in Hin
          by (rewrite wlength_append; unfold wlength; simpl; lia).
        apply IH2 with (e := e) (rest' := rest') in Hin;
          [|reflexivity | now left | exact Hk].
        now rewrite <- app_assoc in Hin.
  - rewrite scan_one_step in Hin by exact Hc.
    apply in_app_or in Hin as [Hin|Hin]; [now apply Hhl|].
    replace (wlength pre + 1) with (wlength (pre ++ [c])) in Hin
      by (rewrite wlength_append; unfold wlength; simpl; lia).
    apply IH1 in Hin; [|now apply Hnext | exact Hk].
    now rewrite <- app_assoc in Hin.
Qed.

(** X10.  What is reported as whitespace is whitespace: on a string of at
    most [INT_MAX] code units, every position of a LeadingWhitespace span
    holds a blank code point or U+00A0, whichever loop reported the span.
    The backslash is taken not to be blank. *)
Theorem X10_whitespace_spans_blank (s : wstring) (h : span) :
  u_isblank BACKSLASH = false ->
  wlength s <= INT_MAX ->
  In h (Basic.Highlight u_isblank s) ->
  sp_kind h = LeadingWhitespace ->
  forall i, sp_start h <= i < sp_end h ->
            exists c, nth_error s (Z.to_nat i) = Some c
                      /\ blankish u_isblank c = true.
Proof.
  intros Hbs Hlen Hin Hk. change (blank_between s (sp_start h) (sp_end h)).
  unfold Basic.Highlight in Hin. destruct s as [|c0 s0]; [contradiction|].
  set (s := c0 :: s0) in *.
  apply in_app_or in Hin as [Hin|Hin]; [|apply in_app_or in Hin as [Hin|Hin]].
  - rewrite (leading_in_range u_isblank s Hlen) in Hin.
    destruct (Basic.blank_prefix u_isblank s 0) as [w|] eqn:E;
      [|contradiction].
    apply blank_prefix_split in E as [bl [c [rest [Es [Hbl [Hc ->]]]]]].
    destruct (0 + wlength bl =? 0); [contradiction|].
    destruct Hin as [<-|[]]. cbn [sp_start sp_end]. rewrite Es.
    exact (blank_between_part [] bl (c :: rest) Hbl).
  - rewrite (trailing_in_range u_isblank s Hlen) in Hin.
    destruct (Basic.blank_prefix u_isblank (rev s) 0) as [w|] eqn:E;
      [|contradiction].
    apply blank_prefix_split in E as [bl [c [rest [Es [Hbl [Hc ->]]]]]].
    destruct (0 + wlength bl =? 0); [contradiction|].
    destruct Hin as [<-|[]]. cbn [sp_start sp_end].
    assert (Es' : s = (rev rest ++ [c]) ++ rev bl ++ []).
    { rewrite <- (rev_involutive s), Es, rev_app_distr. simpl.
      now rewrite app_nil_r. }
    rewrite Es' at 1 2 3.
    replace (wlength ((rev rest ++ [c]) ++ rev bl ++ []) - (0 + wlength bl))
      with (wlength (rev rest ++ [c]))
      by (rewrite !wlength_append, !wlength_rev; unfold wlength; simpl; lia).
    replace (wlength ((rev rest ++ [c]) ++ rev bl ++ []))
      with (wlength (rev rest ++ [c]) + wlength (rev bl))
      by (rewrite !wlength_append; unfold wlength; simpl; lia).
    apply blank_between_part. now apply Forall_rev.
  - exact (scan_whitespace_blank s Hbs [] (-1) h (or_introl eq_refl) Hin Hk).
Qed.

End ScanFacts.

(** ** The pattern matcher and the composite: further facts *)

Section MoreHighlighterFacts.

Variable u_isblank : wchar_t -> bool.
Variable engine : wregex -> wstring -> Regex.regex_run.

Local Abbreviation Highlight := (Highlight u_isblank engine).


Lemma for_each_sub_thrown (hl : SyntaxHighlighter -> list span * outcome)
    (m_sub : list SyntaxHighlighter) (code : error_type) :
  snd (for_each_sub hl m_sub) = Thrown code ->
  exists h, In h m_sub /\ snd (hl h) = Thrown code.
Proof.
  induction m_sub as [|h rest IH]; [discriminate|].
  cbn [for_each_sub]. destruct (hl h) as [out [|code']] eqn:E.
  - destruct (for_each_sub hl rest) as [out' o]. simpl. intros ->.
    destruct (IH eq_refl) as [h' [Hin Hh]]. exists h'. split; [now right | exact Hh].
  - simpl. intros [= ->]. exists h. split; [now left | now rewrite E].
Qed.

Lemma patterns_of_composite (m_sub : list SyntaxHighlighter)
    (h : SyntaxHighlighter) (re : wregex) :
  In h m_sub -> In re (patterns_of h) ->
  In re (patterns_of (CompositeSyntaxHighlighter m_sub)).
Proof.
  induction m_sub as [|h' rest IH]; [contradiction|].
  intros [->|Hin] Hre; cbn [patterns_of]; apply in_or_app.
  - now left.
  - right. exact (IH Hin Hre).
Qed.

(** X12.  No highlighter lets [error_complexity] or [error_stack] out.  An
    exception that leaves [Highlight] carries a code other than these two,
    and it is the code with which a search of one of the highlighter's own
    patterns failed on that string; in particular the structural matcher
    never throws. *)
Theorem X12_what_is_thrown (h : SyntaxHighlighter) (s : wstring)
    (code : error_type) :
  snd (Highlight h s) = Thrown code ->
  resource_exhaustion code = false
  /\ exists re, In re (patterns_of h)
                /\ Regex.finish (engine re s) = Regex.regex_error code.
Proof.
  induction h as [|m_sub IH|m_re m_kind] using SyntaxHighlighter_induction.
  - discriminate.
  - rewrite Highlight_composite. intros E.
    apply for_each_sub_thrown in E as [h [Hin Hh]].
    rewrite Forall_forall in IH. destruct (IH h Hin Hh) as [Hr [re [Hre Hf]]].
    split; [exact Hr|]. exists re. split; [|exact Hf].
    exact (patterns_of_composite m_sub h re Hin Hre).
  - change (Highlight (RegexSyntaxHighlighter m_re m_kind) s)
      with (Regex.Highlight (engine m_re s) m_kind).
    unfold Regex.Highlight. rewrite try_block_spec.
    destruct (Regex.finish (engine m_re s)) as [|code'] eqn:Ef; simpl;
      [discriminate|].
    intros E.
    assert (H : code' = code /\ resource_exhaustion code = false).
    { destruct code'; simpl in E; try discriminate; injection E as <-;
        split; reflexivity. }
    destruct H as [-> Hr]. split; [exact Hr|].
    exists m_re. split; [now left | exact Ef].
Qed.

Lemma for_each_sub_app (hl : SyntaxHighlighter -> list span * outcome)
    (l1 l2 : list SyntaxHighlighter) :
  for_each_sub hl (l1 ++ l2)
  = match for_each_sub hl l1 with
    | (out, Returned) =>
        let (out', o) := for_each_sub hl l2 in (out ++ out', o)
    | (out, Thrown code) => (out, Thrown code)
    end.
Proof.
  induction l1 as [|h l1 IH]; cbn [app for_each_sub].
  - now destruct (for_each_sub hl l2).
  - destruct (hl h) as [out [|code]]; [|reflexivity].
    rewrite IH. destruct (for_each_sub hl l1) as [out1 [|code]];
      [|reflexivity].
    destruct (for_each_sub hl l2) as [out2 o]. now rewrite app_assoc.
Qed.

Lemma for_each_sub_one (hl : SyntaxHighlighter -> list span * outcome)
    (h : SyntaxHighlighter) :
  for_each_sub hl [h] = hl h.
Proof.
  cbn [for_each_sub]. destruct (hl h) as [out [|code]]; [|reflexivity].
  now rewrite app_nil_r.
Qed.

(** X13.  A composite built by [Add] runs what it held before and then the
    highlighter added: the callbacks of the new one come after all the
    others, and it is not run at all when one of the others throws.  More
    generally a composite over two lists put end to end behaves as the
    composite over the first followed by the composite over the second. *)
Theorem X13_Add_runs_last (l1 l2 : list SyntaxHighlighter)
    (h : SyntaxHighlighter) (s : wstring) :
  Highlight (CompositeSyntaxHighlighter (Add l1 h)) s
  = match Highlight (CompositeSyntaxHighlighter l1) s with
    | (out, Returned) => let (out', o) := Highlight h s in (out ++ out', o)
    | (out, Thrown code) => (out, Thrown code)
    end
  /\ Highlight (CompositeSyntaxHighlighter (l1 ++ l2)) s
     = match Highlight (CompositeSyntaxHighlighter l1) s with
       | (out, Returned) =>
           let (out', o) := Highlight (CompositeSyntaxHighlighter l2) s in
           (out ++ out', o)
       | (out, Thrown code) => (out, Thrown code)
       end.
Proof.
  unfold Add. rewrite !Highlight_composite, !for_each_sub_app.
  now rewrite for_each_sub_one.
Qed.

(** X14.  A composite inside a composite counts for its own sub-highlighters
    in its place: putting them there directly changes neither the callbacks
    nor the way the call ends. *)
Theorem X14_nested_composite (l1 l2 l3 : list SyntaxHighlighter)
    (s : wstring) :
  Highlight (CompositeSyntaxHighlighter
               (l1 ++ CompositeSyntaxHighlighter l2 :: l3)) s
  = Highlight (CompositeSyntaxHighlighter (l1 ++ l2 ++ l3)) s.
Proof.
  rewrite !Highlight_composite, !for_each_sub_app.
  change (CompositeSyntaxHighlighter l2 :: l3)
    with ([CompositeSyntaxHighlighter l2] ++ l3).
  rewrite for_each_sub_app, for_each_sub_one, Highlight_composite.
  reflexivity.
Qed.

(** X15.  An exception from a sub-highlighter ends the composite's call
    with that exception: the sub-highlighters before it have delivered
    their callbacks, it has delivered those it made before it threw, and
    the sub-highlighters after it are not run, whatever they are. *)
Theorem X15_exception_stops_composite (l1 l2 : list SyntaxHighlighter)
    (h : SyntaxHighlighter) (s : wstring) (out : list span)
    (code : error_type) :
  Forall (fun h' => snd (Highlight h' s) = Returned) l1 ->
  Highlight h s = (out, Thrown code) ->
  Highlight (CompositeSyntaxHighlighter (l1 ++ h :: l2)) s
  = (concat (map (fun h' => fst (Highlight h' s)) l1) ++ out, Thrown code).
Proof.
  intros Hl1 Hh. rewrite Highlight_composite, for_each_sub_app.
  rewrite (for_each_sub_returned _ l1 Hl1). cbn [for_each_sub].
  now rewrite Hh.
Qed.

End MoreHighlighterFacts.

(** ** The pattern library: what a span of each pattern looks like *)

Section PatternFacts.

Variable isctype : char_class -> wchar_t -> bool.








Variable engine : wregex -> wstring -> Regex.regex_run.
Hypothesis sound : engine_sound isctype engine.




End PatternFacts.

(** ** The selector: further facts *)

Section MoreSelectorFacts.

Variable engine : wregex -> wstring -> Regex.regex_run.
Variable value : TextKind -> Z.

Local Abbreviation ForItem := (ForItem engine value).
Local Abbreviation sniff := (sniff engine).
Local Abbreviation regex_search := (regex_search engine).
Local Abbreviation includes := (includes value).
Local Abbreviation needs := (needs engine value).
Local Abbreviation in_priority_order := (in_priority_order engine value).
Local Abbreviation asked_for := (asked_for value).

(** What [ForItem] returns, when it returns. *)
Lemma ForItem_Ok (item : CatalogItem) (kindsMask : Z)
    (r : option SyntaxHighlighter) :
  ForItem item kindsMask = Ok r ->
  r = if negb (needs item kindsMask Markup RE_HTML_MARKUP)
         && negb (needs item kindsMask Placeholder RE_COMMON_PLACEHOLDERS)
         && String.eqb (GetFormatFlag item) ""
      then if includes kindsMask LeadingWhitespace
              || includes kindsMask Escape
           then Some basic else None
      else Some (CompositeSyntaxHighlighter
                   (in_priority_order item kindsMask)).
Proof.
  intros E. unfold ForItem in E. rewrite nonzero_land_lor in E.
  fold (includes kindsMask Markup) (includes kindsMask Placeholder)
       (includes kindsMask LeadingWhitespace) (includes kindsMask Escape)
    in E.
  unfold bind in E.
  destruct (if includes kindsMask Markup then sniff item RE_HTML_MARKUP
            else Ok false) as [nh|] eqn:Enh; [|discriminate].
  destruct (if includes kindsMask Placeholder
            then sniff item RE_COMMON_PLACEHOLDERS
            else Ok false) as [ng|] eqn:Eng; [|discriminate].
  apply sniff_if_Ok in Enh, Eng.
  unfold in_priority_order, language_matcher. rewrite <- Enh, <- Eng.
  clear Enh Eng. unfold Add in E.
  destruct nh, ng, (String.eqb (GetFormatFlag item) "");
    cbn [negb andb] in E |- *;
    destruct (includes kindsMask LeadingWhitespace || includes kindsMask Escape);
    try (injection E as <-; reflexivity);
    destruct (includes kindsMask Placeholder);
    destruct (String.eqb (GetFormatFlag item) "php");
    destruct (String.eqb (GetFormatFlag item) "c");
    destruct (String.eqb (GetFormatFlag item) "python");
    destruct (String.eqb (GetFormatFlag item) "ruby");
    injection E as <-; reflexivity.
Qed.

(** X18.  [ForItem] returns no matcher only when there is nothing to run:
    the format flag is empty, the mask includes neither LeadingWhitespace
    nor Escape, and neither sniffed pattern is needed. *)
Theorem X18_no_matcher_only_if (item : CatalogItem) (kindsMask : Z) :
  ForItem item kindsMask = Ok None ->
  GetFormatFlag item = ""%string
  /\ includes kindsMask LeadingWhitespace = false
  /\ includes kindsMask Escape = false
  /\ needs item kindsMask Markup RE_HTML_MARKUP = false
  /\ needs item kindsMask Placeholder RE_COMMON_PLACEHOLDERS = false.
Proof.
  intros E. apply ForItem_Ok in E.
  destruct (needs item kindsMask Markup RE_HTML_MARKUP),
           (needs item kindsMask Placeholder RE_COMMON_PLACEHOLDERS),
           (String.eqb_spec (GetFormatFlag item) "");
    cbn [negb andb] in E; try discriminate.
  destruct (includes kindsMask LeadingWhitespace),
           (includes kindsMask Escape); try discriminate.
  repeat split; assumption.
Qed.

(** X19.  An item with a declared format always gets a composite, whatever
    the mask and whatever its strings hold: with a format flag that is not
    empty [ForItem], when it returns, returns neither a null pointer nor
    [basic] itself, but a composite over the sub-matchers in priority
    order. *)
Theorem X19_declared_format_composite (item : CatalogItem) (kindsMask : Z)
    (r : option SyntaxHighlighter) :
  GetFormatFlag item <> ""%string ->
  ForItem item kindsMask = Ok r ->
  r = Some (CompositeSyntaxHighlighter (in_priority_order item kindsMask)).
Proof.
  intros Hf E. apply ForItem_Ok in E.
  destruct (String.eqb_spec (GetFormatFlag item) ""); [contradiction|].
  now rewrite !andb_false_r in E.
Qed.

(** Without Markup and Placeholder in the mask no pattern is searched. *)
Lemma ForItem_unsniffed (item : CatalogItem) (kindsMask : Z) :
  includes kindsMask Markup = false ->
  includes kindsMask Placeholder = false ->
  ForItem item kindsMask
  = Ok (if String.eqb (GetFormatFlag item) ""
        then if includes kindsMask LeadingWhitespace
                || includes kindsMask Escape
             then Some basic else None
        else Some (CompositeSyntaxHighlighter
                     (if includes kindsMask LeadingWhitespace
                         || includes kindsMask Escape
                      then [basic] else []))).
Proof.
  intros Hm Hp. unfold ForItem. rewrite nonzero_land_lor.
  fold (includes kindsMask Markup) (includes kindsMask Placeholder)
       (includes kindsMask LeadingWhitespace) (includes kindsMask Escape).
  rewrite Hm, Hp. cbn [bind negb andb].
  destruct (String.eqb (GetFormatFlag item) "");
    destruct (includes kindsMask LeadingWhitespace || includes kindsMask Escape);
    reflexivity.
Qed.

(** X20.  With only LeadingWhitespace or Escape asked for, the format flag
    and the contents of the strings change nothing in what is highlighted:
    [ForItem] returns (it searches no pattern, so no search can fail), and
    what it returns, [basic] or a composite holding [basic] alone, behaves
    as the structural matcher on every string. *)
Theorem X20_structural_only (u_isblank : wchar_t -> bool)
    (item : CatalogItem) (kindsMask : Z) :
  includes kindsMask Markup = false ->
  includes kindsMask Placeholder = false ->
  includes kindsMask LeadingWhitespace || includes kindsMask Escape = true ->
  exists h,
    ForItem item kindsMask = Ok (Some h)
    /\ forall s,
        Highlight u_isblank engine h s
        = (Basic.Highlight u_isblank s, Returned).
Proof.
  intros Hm Hp Hs. rewrite (ForItem_unsniffed item kindsMask Hm Hp), Hs.
  destruct (String.eqb (GetFormatFlag item) "").
  - exists basic. split; [reflexivity | intros s; reflexivity].
  - exists (CompositeSyntaxHighlighter [basic]).
    split; [reflexivity|]. intros s. simpl. now rewrite app_nil_r.
Qed.

Lemma ForItem_Raise (item : CatalogItem) (kindsMask : Z) (code : error_type) :
  ForItem item kindsMask = Raise code ->
  (includes kindsMask Markup = true
   /\ sniff item RE_HTML_MARKUP = Raise code)
  \/ (includes kindsMask Placeholder = true
      /\ sniff item RE_COMMON_PLACEHOLDERS = Raise code).
Proof.
  unfold ForItem. rewrite nonzero_land_lor.
  fold (includes kindsMask Markup) (includes kindsMask Placeholder)
       (includes kindsMask LeadingWhitespace) (includes kindsMask Escape).
  unfold bind.
  destruct (includes kindsMask Markup);
    [destruct (sniff item RE_HTML_MARKUP) as [nh|c1] eqn:E1|].
  - destruct (includes kindsMask Placeholder);
      [destruct (sniff item RE_COMMON_PLACEHOLDERS) as [ng|c2] eqn:E2|].
    + destruct (negb nh && negb ng && _); [destruct (_ || _)|]; discriminate.
    + intros [= ->]. right. now split.
    + destruct (negb nh && negb false && _); [destruct (_ || _)|]; discriminate.
  - intros [= ->]. left. now split.
  - destruct (includes kindsMask Placeholder);
      [destruct (sniff item RE_COMMON_PLACEHOLDERS) as [ng|c2] eqn:E2|].
    + destruct (negb false && negb ng && _); [destruct (_ || _)|]; discriminate.
    + intros [= ->]. right. now split.
    + destruct (negb false && negb false && _); [destruct (_ || _)|];
        discriminate.
Qed.

Lemma sniff_Raise (item : CatalogItem) (re : wregex) (code : error_type) :
  sniff item re = Raise code ->
  regex_search (GetString item) re = Raise code
  \/ (HasPlural item = true
      /\ regex_search (GetPluralString item) re = Raise code).
Proof.
  unfold sniff, bind.
  destruct (regex_search (GetString item) re) as [[|]|c] eqn:E.
  - discriminate.
  - destruct (HasPlural item); [|discriminate]. intros H. right. now split.
  - intros [= ->]. now left.
Qed.

(** X21.  [ForItem] has no handler of its own.  A failure of the first
    search it makes, that of the markup pattern in the item's string, leaves
    it as an exception with the same code, resource exhaustion included,
    which [Highlight] would have absorbed.  And an exception never comes
    from elsewhere: it is the failure of a search of the markup pattern or
    of the generic placeholder pattern, asked for by the mask, in the item's
    string or in the plural string of an item that has one. *)
Theorem X21_sniffing_failure (item : CatalogItem) (kindsMask : Z)
    (code : error_type) :
  (includes kindsMask Markup = true ->
   regex_search (GetString item) RE_HTML_MARKUP = Raise code ->
   ForItem item kindsMask = Raise code)
  /\ (ForItem item kindsMask = Raise code ->
      exists k re str,
        In (k, re) [(Markup, RE_HTML_MARKUP);
                    (Placeholder, RE_COMMON_PLACEHOLDERS)]
        /\ includes kindsMask k = true
        /\ (str = GetString item
            \/ (HasPlural item = true /\ str = GetPluralString item))
        /\ regex_search str re = Raise code).
Proof.
  split.
  - intros Hm E. unfold ForItem. fold (includes kindsMask Markup).
    rewrite Hm. unfold sniff, bind. now rewrite E.
  - intros E. apply ForItem_Raise in E as [[Hi E]|[Hi E]];
      apply sniff_Raise in E as [E|[Hp E]].
    + exists Markup, RE_HTML_MARKUP, (GetString item).
      repeat split; simpl; auto.
    + exists Markup, RE_HTML_MARKUP, (GetPluralString item).
      repeat split; simpl; auto.
    + exists Placeholder, RE_COMMON_PLACEHOLDERS, (GetString item).
      repeat split; simpl; auto.
    + exists Placeholder, RE_COMMON_PLACEHOLDERS, (GetPluralString item).
      repeat split; simpl; auto.
Qed.

Lemma for_each_sub_In (hl : SyntaxHighlighter -> list span * outcome)
    (m_sub : list SyntaxHighlighter) (sp : span) :
  In sp (fst (for_each_sub hl m_sub)) ->
  exists h, In h m_sub /\ In sp (fst (hl h)).
Proof.
  induction m_sub as [|h rest IH]; [contradiction|].
  cbn [for_each_sub]. destruct (hl h) as [out [|code]] eqn:E.
  - destruct (for_each_sub hl rest) as [out' o]. simpl in *. intros Hin.
    apply in_app_or in Hin as [Hin|Hin].
    + exists h. rewrite E. split; [now left | exact Hin].
    + destruct (IH Hin) as [h' [H1 H2]]. exists h'. split; [now right | exact H2].
  - simpl. intros Hin. exists h. rewrite E. split; [now left | exact Hin].
Qed.

Lemma regex_span_kind (u_isblank : wchar_t -> bool) (re : wregex)
    (kind : TextKind) (s : wstring) (sp : span) :
  In sp (fst (Highlight u_isblank engine (RegexSyntaxHighlighter re kind) s)) ->
  sp_kind sp = kind.
Proof.
  intros Hin. apply Highlight_delivers_found in Hin as [m [_ [_ ->]]].
  reflexivity.
Qed.

(** X22.  A matcher returned by [ForItem] reports only what the mask asks
    for: a Markup span only if the mask includes Markup, a Placeholder span
    only if it includes Placeholder, and a LeadingWhitespace or Escape span
    only if it includes one of these two, which the selector does not tell
    apart. *)
Theorem X22_only_kinds_asked_for (u_isblank : wchar_t -> bool)
    (item : CatalogItem) (kindsMask : Z) (h : SyntaxHighlighter)
    (s : wstring) (sp : span) :
  ForItem item kindsMask = Ok (Some h) ->
  In sp (fst (Highlight u_isblank engine h s)) ->
  asked_for kindsMask (sp_kind sp) = true.
Proof.
  intros E Hin. apply ForItem_Ok in E.
  assert (Hb : forall sp',
             In sp' (Basic.Highlight u_isblank s) ->
             includes kindsMask LeadingWhitespace
             || includes kindsMask Escape = true ->
             asked_for kindsMask (sp_kind sp') = true).
  { intros sp' H Hs. apply Basic_Highlight_kinds in H as [->|[-> _]];
      exact Hs. }
  destruct (negb (needs item kindsMask Markup RE_HTML_MARKUP)
            && negb (needs item kindsMask Placeholder RE_COMMON_PLACEHOLDERS)
            && String.eqb (GetFormatFlag item) "").
  - destruct (includes kindsMask LeadingWhitespace || includes kindsMask Escape)
      eqn:Hs; [|discriminate].
    injection E as ->. exact (Hb sp Hin eq_refl).
  - injection E as ->. rewrite Highlight_composite in Hin.
    apply for_each_sub_In in Hin as [h' [Hh' Hsp]].
    unfold in_priority_order, language_matcher, needs in Hh'.
    repeat (apply in_app_or in Hh' as [Hh'|Hh']).
    + destruct (includes kindsMask Markup) eqn:Hi;
        [|simpl in Hh'; contradiction].
      destruct (_ || _) in Hh'; simpl in Hh'; [|contradiction].
      destruct Hh' as [<-|[]]. apply regex_span_kind in Hsp.
      rewrite Hsp. exact Hi.
    + destruct (includes kindsMask Placeholder) eqn:Hi;
        [|simpl in Hh'; contradiction].
      destruct (_ || _) in Hh'; simpl in Hh'; [|contradiction].
      destruct Hh' as [<-|[]]. apply regex_span_kind in Hsp.
      rewrite Hsp. exact Hi.
    + destruct (includes kindsMask Placeholder) eqn:Hi; [|contradiction].
      assert (Hk : sp_kind sp = Placeholder).
      { destruct (String.eqb (GetFormatFlag item) "php");
          [|destruct (String.eqb (GetFormatFlag item) "c");
            [|destruct (String.eqb (GetFormatFlag item) "python");
              [|destruct (String.eqb (GetFormatFlag item) "ruby")]]];
          try contradiction; destruct Hh' as [<-|[]];
          exact (regex_span_kind _ _ _ _ _ Hsp). }
      rewrite Hk. exact Hi.
    + destruct (includes kindsMask LeadingWhitespace || includes kindsMask Escape)
        eqn:Hs; [|contradiction].
      destruct Hh' as [<-|[]]. exact (Hb sp Hsp eq_refl).
Qed.

Lemma library_spans_ok (isctype : char_class -> wchar_t -> bool)
    (u_isblank : wchar_t -> bool) (h : SyntaxHighlighter) (s : wstring) :
  engine_sound isctype engine ->
  from_library h ->
  wlength s <= INT_MAX ->
  Forall (span_ok s) (fst (Highlight u_isblank engine h s)).
Proof.
  intros Hsound Hlib Hlen. revert Hlib. induction h as [|m_sub IH|m_re m_kind]
    using SyntaxHighlighter_induction; intros Hlib.
  - now apply Basic_Highlight_ok.
  - rewrite Highlight_composite. apply for_each_sub_Forall.
    apply from_library_composite in Hlib.
    rewrite Forall_forall in *. intros h Hin. apply IH; auto.
  - simpl in Hlib. apply library_not_nullable in Hlib as [r [Hc Hn]].
    apply Forall_forall. intros sp Hin.
    apply Highlight_delivers_found in Hin as [m [Hm [He ->]]].
    eapply sound_match_span_ok; [exact Hn|].
    exact (Hsound m_re r s m Hc Hm He).
Qed.

(** X23.  Whatever [ForItem] returns can be run on any string of at most
    [INT_MAX] code units, not only on the strings of the item it was chosen
    for, and under a sound engine every span it delivers lies in that string
    and is not empty, also when the call ends with an exception. *)
Theorem X23_selected_matcher_spans (isctype : char_class -> wchar_t -> bool)
    (u_isblank : wchar_t -> bool) (item : CatalogItem) (kindsMask : Z)
    (h : SyntaxHighlighter) (s : wstring) :
  engine_sound isctype engine ->
  ForItem item kindsMask = Ok (Some h) ->
  wlength s <= INT_MAX ->
  Forall (span_ok s) (fst (Highlight u_isblank engine h s)).
Proof.
  intros Hsound E Hlen.
  apply (library_spans_ok isctype); [exact Hsound| |exact Hlen].
  exact (ForItem_from_library engine value item kindsMask h E).
Qed.

(** X24.  A composite returned by [ForItem] holds at most four
    sub-matchers, and none of them twice: no matcher is run twice on the
    same string by one call. *)
Theorem X24_no_matcher_twice (item : CatalogItem) (kindsMask : Z)
    (m_sub : list SyntaxHighlighter) :
  ForItem item kindsMask = Ok (Some (CompositeSyntaxHighlighter m_sub)) ->
  NoDup m_sub /\ (length m_sub <= 4)%nat.
Proof.
  intros E. apply ForItem_Some in E as [E|E]; [discriminate|].
  injection E as ->. unfold in_priority_order, language_matcher.
  destruct (needs item kindsMask Markup RE_HTML_MARKUP),
           (needs item kindsMask Placeholder RE_COMMON_PLACEHOLDERS),
           (includes kindsMask Placeholder),
           (includes kindsMask LeadingWhitespace || includes kindsMask Escape),
           (String.eqb (GetFormatFlag item) "php"),
           (String.eqb (GetFormatFlag item) "c"),
           (String.eqb (GetFormatFlag item) "python"),
           (String.eqb (GetFormatFlag item) "ruby");
    (split; [repeat constructor; simpl; intuition discriminate
            | simpl; lia]).
Qed.

End MoreSelectorFacts.

(** ** Instances of the further properties *)


Lemma X2_edges_apart_witness :
  wlength (L "  hello  ") <= INT_MAX
  /\ In (Span 0 2 LeadingWhitespace)
       (Basic.leading icu_isblank (L "  hello  "))
  /\ In (Span 7 9 LeadingWhitespace)
        (Basic.trailing icu_isblank (L "  hello  "))
  /\ 2 < 7.
Proof.
  assert (A : In (Span 0 2 LeadingWhitespace)
                 (Basic.leading icu_isblank (L "  hello  ")))
    by (left; reflexivity).
  assert (B : In (Span 7 9 LeadingWhitespace)
                 (Basic.trailing icu_isblank (L "  hello  ")))
    by (left; reflexivity).
  assert (Hlen : wlength (L "  hello  ") <= INT_MAX) by discriminate.
  split; [exact Hlen | split; [exact A | split; [exact B|]]].
  exact (X2_edges_apart icu_isblank (L "  hello  ") _ _ Hlen A B).
Defined.





Lemma X7_ordinary_text_witness :
  ~ In NBSP (L "a b c")
  /\ ~ In BACKSLASH (L "a b c")
  /\ single_blanks icu_isblank (L "a b c") = true
  /\ Basic.Highlight icu_isblank (L "a b c") = [].
Proof.
  assert (Hn : ~ In NBSP (L "a b c"))
    by (simpl; unfold NBSP; intuition discriminate).
  assert (Hb : ~ In BACKSLASH (L "a b c"))
    by (simpl; unfold BACKSLASH; intuition discriminate).
  split; [exact Hn | split; [exact Hb | split; [reflexivity|]]].
  apply (X7_ordinary_text icu_isblank (L "a b c") Hn Hb eq_refl).
  - intros c [= <-]. reflexivity.
  - intros c [= <-]. reflexivity.
Defined.

Lemma X10_whitespace_spans_blank_witness :
  icu_isblank BACKSLASH = false
  /\ wlength (L "  x") <= INT_MAX
  /\ In (Span 0 2 LeadingWhitespace) (Basic.Highlight icu_isblank (L "  x"))
  /\ exists c, nth_error (L "  x") (Z.to_nat 1) = Some c
               /\ blankish icu_isblank c = true.
Proof.
  assert (A : In (Span 0 2 LeadingWhitespace)
                 (Basic.Highlight icu_isblank (L "  x")))
    by (left; reflexivity).
  assert (Hlen : wlength (L "  x") <= INT_MAX) by discriminate.
  split; [reflexivity | split; [exact Hlen | split; [exact A|]]].
  apply (X10_whitespace_spans_blank icu_isblank (L "  x") _ eq_refl Hlen A
           eq_refl).
  simpl. lia.
Defined.

(** Beyond [INT_MAX] the bound of X10 is needed: on 2^32 + 1 times x and two
    spaces the length becomes 3 as an [int], the trailing loop reports the
    span [1,3), and position 1 holds an x. *)
Lemma whitespace_span_beyond_int :
  wlength xs_and_two_spaces = 4294967299
  /\ In (Span 1 3 LeadingWhitespace)
       (Basic.Highlight icu_isblank xs_and_two_spaces)
  /\ nth_error xs_and_two_spaces (Z.to_nat 1) = Some 120
  /\ blankish icu_isblank 120 = false.
Proof.
  assert (Hn : Z.of_nat (Z.to_nat 4294967296) = 4294967296)
    by (apply Z2Nat.id; discriminate).
  unfold xs_and_two_spaces. revert Hn. generalize (Z.to_nat 4294967296).
  intros n Hn.
  split; [|split; [|split; [|reflexivity]]].
  - rewrite wlength_append. unfold wlength. now rewrite repeat_length, Hn.
  - rewrite Highlight_three_loops.
    apply in_or_app. left. apply in_or_app. right.
    rewrite trailing_exact by (repeat constructor).
    rewrite wlength_append. unfold wlength. rewrite repeat_length, Hn.
    now left.
  - destruct n as [|[|n']]; [discriminate Hn | discriminate Hn | reflexivity].
Qed.


Lemma X12_what_is_thrown_witness :
  snd (Highlight icu_isblank (failing error_space 1)
         (CompositeSyntaxHighlighter [basic; c_format]) (L "%d %s"))
  = Thrown error_space
  /\ resource_exhaustion error_space = false
  /\ exists re,
      In re (patterns_of (CompositeSyntaxHighlighter [basic; c_format]))
      /\ Regex.finish (failing error_space 1 re (L "%d %s"))
         = Regex.regex_error error_space.
Proof.
  split; [reflexivity|].
  exact (X12_what_is_thrown icu_isblank (failing error_space 1)
           (CompositeSyntaxHighlighter [basic; c_format]) (L "%d %s")
           error_space eq_refl).
Defined.

Lemma X15_exception_stops_composite_witness :
  Highlight icu_isblank (failing error_space 2) c_format (L "  %d %s %u")
  = ([Span 2 4 Placeholder], Thrown error_space)
  /\ Highlight icu_isblank (failing error_space 2)
       (CompositeSyntaxHighlighter ([basic] ++ c_format :: [html]))
       (L "  %d %s %u")
     = ([Span 0 2 LeadingWhitespace; Span 0 2 LeadingWhitespace]
          ++ [Span 2 4 Placeholder],
        Thrown error_space).
Proof.
  split; [reflexivity|].
  apply (X15_exception_stops_composite icu_isblank (failing error_space 2)
           [basic] [html] c_format (L "  %d %s %u") [Span 2 4 Placeholder]
           error_space).
  - repeat constructor.
  - reflexivity.
Defined.



Lemma X18_no_matcher_only_if_witness :
  ForItem Reference.engine bit_value plain_item 8 = Ok None
  /\ GetFormatFlag plain_item = ""%string
  /\ includes bit_value 8 LeadingWhitespace = false
  /\ includes bit_value 8 Escape = false.
Proof.
  assert (E : ForItem Reference.engine bit_value plain_item 8 = Ok None)
    by reflexivity.
  destruct (X18_no_matcher_only_if Reference.engine bit_value plain_item 8 E)
    as [H1 [H2 [H3 _]]].
  split; [exact E | split; [exact H1 | split; [exact H2 | exact H3]]].
Defined.

Lemma X19_declared_format_composite_witness :
  GetFormatFlag java_item <> ""%string
  /\ ForItem Reference.engine bit_value java_item 0
     = Ok (Some (CompositeSyntaxHighlighter []))
  /\ Some (CompositeSyntaxHighlighter [])
     = Some (CompositeSyntaxHighlighter
               (in_priority_order Reference.engine bit_value java_item 0)).
Proof.
  assert (Hf : GetFormatFlag java_item <> ""%string) by discriminate.
  split; [exact Hf | split; [reflexivity|]].
  exact (X19_declared_format_composite Reference.engine bit_value java_item 0
           _ Hf eq_refl).
Defined.

Lemma X20_structural_only_witness :
  includes bit_value 3 Markup = false
  /\ includes bit_value 3 Placeholder = false
  /\ exists h,
      ForItem Reference.engine bit_value c_item 3 = Ok (Some h)
      /\ forall s,
          Highlight icu_isblank Reference.engine h s
          = (Basic.Highlight icu_isblank s, Returned).
Proof.
  split; [reflexivity | split; [reflexivity|]].
  exact (X20_structural_only Reference.engine bit_value icu_isblank c_item 3
           eq_refl eq_refl eq_refl).
Defined.

Lemma X21_sniffing_failure_witness :
  includes bit_value 15 Markup = true
  /\ regex_search (Reference.limited 0) (GetString c_item) RE_HTML_MARKUP
     = Raise error_complexity
  /\ ForItem (Reference.limited 0) bit_value c_item 15
     = Raise error_complexity
  /\ exists k re str,
      In (k, re) [(Markup, RE_HTML_MARKUP);
                  (Placeholder, RE_COMMON_PLACEHOLDERS)]
      /\ includes bit_value 15 k = true
      /\ (str = GetString c_item
          \/ (HasPlural c_item = true /\ str = GetPluralString c_item))
      /\ regex_search (Reference.limited 0) str re = Raise error_complexity.
Proof.
  destruct (X21_sniffing_failure (Reference.limited 0) bit_value c_item 15
              error_complexity) as [H1 H2].
  split; [reflexivity | split; [reflexivity|]].
  split; [exact (H1 eq_refl eq_refl) | exact (H2 (H1 eq_refl eq_refl))].
Defined.

Lemma X22_only_kinds_asked_for_witness :
  ForItem Reference.engine bit_value c_item 8
  = Ok (Some (CompositeSyntaxHighlighter [placeholders; c_format]))
  /\ In (Span 18 23 Placeholder)
        (fst (Highlight icu_isblank Reference.engine
                (CompositeSyntaxHighlighter [placeholders; c_format])
                (GetString c_item)))
  /\ asked_for bit_value 8 Placeholder = true.
Proof.
  assert (E : ForItem Reference.engine bit_value c_item 8
              = Ok (Some (CompositeSyntaxHighlighter [placeholders; c_format])))
    by reflexivity.
  assert (A : In (Span 18 23 Placeholder)
                 (fst (Highlight icu_isblank Reference.engine
                         (CompositeSyntaxHighlighter [placeholders; c_format])
                         (GetString c_item))))
    by (right; left; reflexivity).
  split; [exact E | split; [exact A|]].
  exact (X22_only_kinds_asked_for Reference.engine bit_value icu_isblank
           c_item 8 _ _ _ E A).
Defined.

Lemma X23_selected_matcher_spans_witness :
  engine_sound Reference.isctype Reference.engine
  /\ ForItem Reference.engine bit_value c_item 15
     = Ok (Some (CompositeSyntaxHighlighter
                   [html; placeholders; c_format; basic]))
  /\ wlength (L "50% of <i>%s</i>  ") <= INT_MAX
  /\ Forall (span_ok (L "50% of <i>%s</i>  "))
       (fst (Highlight icu_isblank Reference.engine
               (CompositeSyntaxHighlighter
                  [html; placeholders; c_format; basic])
               (L "50% of <i>%s</i>  "))).
Proof.
  assert (Hlen : wlength (L "50% of <i>%s</i>  ") <= INT_MAX) by discriminate.
  split; [exact reference_engine_sound | split; [reflexivity|]].
  split; [exact Hlen|].
  exact (X23_selected_matcher_spans Reference.engine bit_value
           Reference.isctype icu_isblank c_item 15 _ (L "50% of <i>%s</i>  ")
           reference_engine_sound eq_refl Hlen).
Defined.

Lemma X24_no_matcher_twice_witness :
  ForItem Reference.engine bit_value c_item 15
  = Ok (Some (CompositeSyntaxHighlighter
                [html; placeholders; c_format; basic]))
  /\ NoDup [html; placeholders; c_format; basic]
  /\ (length [html; placeholders; c_format; basic] <= 4)%nat.
Proof.
  split; [reflexivity|].
  exact (X24_no_matcher_twice Reference.engine bit_value c_item 15 _ eq_refl).
Defined.
